(** * backup-service: a shallow embedding of [main.go]

    The service snapshots one file, gzips the copy, uploads it to an
    S3-compatible bucket under [backups/], prunes old objects and removes its
    local files.  This development embeds [loadConfig], [createBackup],
    [compressFile], [uploadToR2], [cleanupOldBackups], [runBackup] and the
    job registered by [scheduleBackup] as state-passing functions over an
    explicit world (file system and bucket) that also yield the events and
    log lines of the run, and proves the
    properties of the specification about them.

    What the program calls but does not define (the [path/filepath], [time],
    [fmt], [os], [compress/gzip] packages and the S3 client) is modelled by
    its documented behaviour; each such definition says so. *)

From Stdlib Require Import ZArith Ascii String List Lia.
From stdpp Require Import base option list gmap strings sorting.

Local Open Scope Z_scope.

(** ** Characters, strings and bytes *)

Abbreviation bytes := (list Byte.byte).

Global Instance byte_eq_dec : EqDecision Byte.byte := Byte.byte_eq_dec.

Definition to_chars (s : string) : list ascii := list_ascii_of_string s.
Definition of_chars (l : list ascii) : string := string_of_list_ascii l.

Definition slash : ascii := "/"%char.
Definition dot : ascii := "."%char.

Definition is_slash (c : ascii) : bool := bool_decide (c = slash).

(** ** [path/filepath] and [strings] (Unix rules)

    Modelled from the package documentation.  A path is cut into the
    elements between separators; [Clean] applies the four documented
    rewriting rules to that sequence. *)

Module filepath.

(** The elements of a path: [split "a//b"] is ["a"; ""; "b"]. *)
Fixpoint split (p : list ascii) : list (list ascii) :=
  match p with
  | [] => [[]]
  | c :: p' =>
      if is_slash c then [] :: split p'
      else match split p' with
           | e :: es => (c :: e) :: es
           | [] => [[c]]
           end
  end.

Fixpoint join (es : list (list ascii)) : list ascii :=
  match es with
  | [] => []
  | [e] => e
  | e :: es' => e ++ slash :: join es'
  end.

Definition dotdot : list ascii := [dot; dot].

(** One element of the path against the elements kept so far (most recent
    first): empty and [.] elements vanish, [..] removes the element before
    it, is dropped at the root, and is kept at the start of a relative
    path. *)
Definition clean_step (rooted : bool) (kept : list (list ascii))
    (e : list ascii) : list (list ascii) :=
  if bool_decide (e = []) then kept
  else if bool_decide (e = [dot]) then kept
  else if bool_decide (e = dotdot) then
    match kept with
    | top :: rest =>
        if bool_decide (top = dotdot)
        then (if rooted then kept else dotdot :: kept)
        else rest
    | [] => if rooted then [] else [dotdot]
    end
  else e :: kept.

Definition is_rooted (p : list ascii) : bool :=
  match p with c :: _ => is_slash c | [] => false end.

Definition clean (p : list ascii) : list ascii :=
  match p with
  | [] => [dot]
  | _ =>
      let kept := fold_left (clean_step (is_rooted p)) (split p) [] in
      let body := join (rev kept) in
      if is_rooted p then slash :: body
      else match body with [] => [dot] | _ => body end
  end.

(** The last non-empty element, if the path has one. *)
Definition last_element (p : list ascii) : option (list ascii) :=
  last (filter (λ e, e ≠ []) (split p)).

(** [Base]: the last element of the path, trailing separators removed
    first; ["."] for the empty path, ["/"] for a path of separators only. *)
Definition base (p : list ascii) : list ascii :=
  match p with
  | [] => [dot]
  | _ => default [slash] (last_element p)
  end.

(** The suffix of [e] beginning at its last dot. *)
Fixpoint from_last_dot (e : list ascii) : option (list ascii) :=
  match e with
  | [] => None
  | c :: e' =>
      match from_last_dot e' with
      | Some s => Some s
      | None => if bool_decide (c = dot) then Some e else None
      end
  end.

(** [Ext]: the suffix beginning at the final dot in the final element of
    the path; empty if there is no dot. *)
Definition ext (p : list ascii) : list ascii :=
  default [] (from_last_dot (default [] (last (split p)))).

(** [Dir]: all but the last element, cleaned. *)
Definition dir (p : list ascii) : list ascii :=
  clean (take (length p - length (default [] (last (split p)))) p).

(** [Join] of two elements: empty leading elements are ignored, the rest
    is joined by a separator and cleaned. *)
Definition join2 (a b : list ascii) : list ascii :=
  match a, b with
  | [], [] => []
  | [], _ => clean b
  | _, _ => clean (a ++ slash :: b)
  end.

Definition Base (p : string) : string := of_chars (base (to_chars p)).
Definition Ext (p : string) : string := of_chars (ext (to_chars p)).
Definition Dir (p : string) : string := of_chars (dir (to_chars p)).
Definition Clean (p : string) : string := of_chars (clean (to_chars p)).
Definition Join (a b : string) : string :=
  of_chars (join2 (to_chars a) (to_chars b)).

End filepath.

Module strings.

Definition has_prefix (s p : list ascii) : bool :=
  bool_decide (take (length p) s = p).

Definition has_suffix (s x : list ascii) : bool :=
  bool_decide (drop (length s - length x) s = x).

Definition trim_suffix (s x : list ascii) : list ascii :=
  if has_suffix s x then take (length s - length x) s else s.

Definition HasPrefix (s p : string) : bool :=
  has_prefix (to_chars s) (to_chars p).
Definition TrimSuffix (s x : string) : string :=
  of_chars (trim_suffix (to_chars s) (to_chars x)).

End strings.

(** ** Machine integers

    Go's [int] on the 64-bit targets the image is built for. *)

Definition min_int : Z := - 2 ^ 63.
Definition max_int : Z := 2 ^ 63 - 1.

Definition wrap64 (z : Z) : Z := (z + 2 ^ 63) mod 2 ^ 64 - 2 ^ 63.

Definition in_int (z : Z) : Prop := min_int <= z <= max_int.

(** ** Decimal digits *)

Definition digit_chars : list ascii :=
  ["0"; "1"; "2"; "3"; "4"; "5"; "6"; "7"; "8"; "9"]%char.

Definition digit_char (d : Z) : ascii := nth (Z.to_nat d) digit_chars "0"%char.

Fixpoint digit_index (c : ascii) (ds : list ascii) (i : Z) : option Z :=
  match ds with
  | [] => None
  | d :: ds' => if bool_decide (c = d) then Some i else digit_index c ds' (i + 1)
  end.

Definition digit_val (c : ascii) : option Z := digit_index c digit_chars 0.

(** Digits of [n >= 0], least significant first. *)
Fixpoint digits_rev (fuel : nat) (n : Z) : list ascii :=
  match fuel with
  | O => []
  | S fuel' =>
      digit_char (n mod 10) ::
      (if n <? 10 then [] else digits_rev fuel' (n / 10))
  end.

Definition itoa_abs (n : Z) : list ascii :=
  rev (digits_rev (S (Z.to_nat (Z.log2 n))) n).

(** [strconv.Itoa]. *)
Definition itoa (z : Z) : list ascii :=
  (if z <? 0 then ["-"%char] else []) ++ itoa_abs (Z.abs z).

(** ** [time]

    An instant is a count of seconds since the Unix epoch and a nanosecond
    offset, as [Time.Unix] and [Time.Nanosecond] report it.  The location is
    a fixed offset from UTC (no daylight-saving transitions).  Modelled from
    the package documentation; [AddDate] keeps the wrap-around of the 64-bit
    second counter that [time.Date] computes with (seconds since year 1). *)

Record Time := { sec : Z; nsec : Z }.

Definition unixToInternal : Z := 62135596800.

(** [t.Before(u)]. *)
Definition Before (t u : Time) : bool :=
  (sec t <? sec u) || ((sec t =? sec u) && (nsec t <? nsec u)).

(** [t.AddDate(0, 0, days)]. *)
Definition AddDate (t : Time) (days : Z) : Time :=
  {| sec := wrap64 (sec t + unixToInternal + days * 86400) - unixToInternal;
     nsec := nsec t |}.

(** Proleptic Gregorian date of a day count since 1970-01-01. *)
Definition civil_from_days (z : Z) : Z * Z * Z :=
  let z := z + 719468 in
  let era := z / 146097 in
  let doe := z - era * 146097 in
  let yoe := (doe - doe / 1460 + doe / 36524 - doe / 146096) / 365 in
  let doy := doe - (365 * yoe + yoe / 4 - yoe / 100) in
  let mp := (5 * doy + 2) / 153 in
  let d := doy - (153 * mp + 2) / 5 + 1 in
  let m := if mp <? 10 then mp + 3 else mp - 9 in
  let y := yoe + era * 400 + (if m <=? 2 then 1 else 0) in
  (y, m, d).

(** [appendInt] of package [time]: sign, zero padding to [width], digits. *)
Definition append_int (x : Z) (width : nat) : list ascii :=
  let ds := itoa_abs (Z.abs x) in
  (if x <? 0 then ["-"%char] else []) ++
  replicate (width - length ds) "0"%char ++ ds.

(** [t.Format("20060102_150405")] in a location [offset] seconds east of
    UTC. *)
Definition format_stamp (offset : Z) (t : Time) : list ascii :=
  let local := sec t + offset in
  let '(y, m, d) := civil_from_days (local / 86400) in
  let s := local mod 86400 in
  append_int y 4 ++ append_int m 2 ++ append_int d 2 ++ ["_"%char] ++
  append_int (s / 3600) 2 ++ append_int (s mod 3600 / 60) 2 ++
  append_int (s mod 60) 2.

Definition Format (offset : Z) (t : Time) : string :=
  of_chars (format_stamp offset t).

(** ** [fmt.Sscanf(s, "%d", &n)]

    Modelled from the documentation of package [fmt]: leading blanks are
    skipped (a newline is an error), an optional sign and a run of digits and
    underscores form the token, the token must be a base-10 integer that fits
    the [int]; the rest of the input is not looked at. *)

Definition is_blank (c : ascii) : bool :=
  bool_decide (c ∈ [" "; "009"; "011"; "012"; "013"]%char).

Definition is_newline (c : ascii) : bool := bool_decide (c = "010"%char).

Definition is_sign (c : ascii) : bool := bool_decide (c ∈ ["+"; "-"]%char).

Definition is_number_char (c : ascii) : bool :=
  bool_decide (c ∈ "_"%char :: digit_chars).

Fixpoint skip_blanks (s : list ascii) : list ascii :=
  match s with
  | c :: s' => if is_blank c then skip_blanks s' else s
  | [] => []
  end.

Fixpoint number_token (s : list ascii) : list ascii :=
  match s with
  | c :: s' => if is_number_char c then c :: number_token s' else []
  | [] => []
  end.

(** Value of a run of digits; [None] at a character that is not a digit. *)
Fixpoint digits_value (acc : Z) (tok : list ascii) : option Z :=
  match tok with
  | [] => Some acc
  | c :: tok' =>
      match digit_val c with
      | Some d => digits_value (acc * 10 + d) tok'
      | None => None
      end
  end.

Definition scan_int (s : list ascii) : option Z :=
  match skip_blanks s with
  | [] => None
  | c :: rest =>
      if is_newline c then None else
      let '(neg, rest) :=
        if is_sign c then (bool_decide (c = "-"%char), rest)
        else (false, c :: rest) in
      match number_token rest with
      | [] => None
      | tok =>
          match digits_value 0 tok with
          | Some v =>
              let z := if neg then - v else v in
              if bool_decide (min_int <= z <= max_int) then Some z else None
          | None => None
          end
      end
  end.

Definition Sscanf_d (s : string) : option Z := scan_int (to_chars s).

(** ** Configuration ([Config], [loadConfig]) *)

Record Config := {
  R2AccessKeyID : string;
  R2SecretAccessKey : string;
  R2AccountID : string;
  R2Bucket : string;
  DBPath : string;
  HostDBPath : string;
  BackupDir : string;
  RetentionDays : Z
}.

Inductive ConfigError :=
| InvalidRetentionDays
| RequiredNotSet (name : string).

(** [os.Getenv]: the empty string for a variable that is not set. *)
Definition Getenv (env : gmap string string) (name : string) : string :=
  default "" (env !! name).

Definition first_unset (required : list (string * string)) : option string :=
  fst <$> head (filter (λ nv, nv.2 = "") required).

(** [loadConfig].  The source ranges over a Go map of the six required
    variables, whose iteration order is not fixed; the model reports the
    first unset one in the order of the map literal. *)
Definition loadConfig (env : gmap string string) : ConfigError + Config :=
  let backupDir := Getenv env "BACKUP_DIR" in
  let backupDir := if bool_decide (backupDir = "") then "/backups" else backupDir in
  let retention :=
    let s := Getenv env "RETENTION_DAYS" in
    if bool_decide (s = "") then Some 30 else Sscanf_d s in
  match retention with
  | None => inl InvalidRetentionDays
  | Some days =>
      let cfg := {| R2AccessKeyID := Getenv env "R2_ACCESS_KEY_ID";
                    R2SecretAccessKey := Getenv env "R2_SECRET_ACCESS_KEY";
                    R2AccountID := Getenv env "R2_ACCOUNT_ID";
                    R2Bucket := Getenv env "R2_BUCKET";
                    DBPath := Getenv env "DB_PATH";
                    HostDBPath := Getenv env "HOST_DB_PATH";
                    BackupDir := backupDir;
                    RetentionDays := days |} in
      match first_unset [("R2_ACCESS_KEY_ID", R2AccessKeyID cfg);
                         ("R2_SECRET_ACCESS_KEY", R2SecretAccessKey cfg);
                         ("R2_ACCOUNT_ID", R2AccountID cfg);
                         ("R2_BUCKET", R2Bucket cfg);
                         ("DB_PATH", DBPath cfg);
                         ("HOST_DB_PATH", HostDBPath cfg)] with
      | Some name => inl (RequiredNotSet name)
      | None => inr cfg
      end
  end.

(** ** The world of one job run *)

(** What [createBackup], [compressFile], [uploadToR2] and
    [cleanupOldBackups] wrap with [fmt.Errorf]. *)
Inductive Error :=
| ErrCreateBackupDir     (* failed to create backup directory *)
| ErrOpenDatabase        (* failed to open database *)
| ErrCreateBackupFile    (* failed to create backup file *)
| ErrCopyDatabase        (* failed to copy database *)
| ErrOpenSource          (* failed to open source file *)
| ErrCreateCompressed    (* failed to create compressed file *)
| ErrCompress            (* failed to compress file *)
| ErrOpenForUpload       (* failed to open file for upload *)
| ErrUpload              (* failed to upload to R2 *)
| ErrList.               (* failed to list R2 objects *)

Inductive Stage := Snapshot | Compress | Upload | Prune.

(** What a run does to the outside, in order: a stage is entered, a request
    is sent to the store, a local file is removed. *)
Inductive Event :=
| EStage (s : Stage)
| EPut (key : string)
| EList (prefix : string)
| EDelete (key : string)
| ERemove (path : string).

(** The lines written with [log.Printf] and [log.Println]. *)
Inductive LogLine :=
| LStartingScheduled (at_ : Time)
| LBackupFailed (e : Error)
| LCompressionFailed (e : Error)
| LUploadFailed (e : Error)
| LCleanupWarning (e : Error)
| LDeleteFailed (key : string)
| LDeletedOld (key : string)
| LCompleted
| LScheduledCompleted.

(** [RemoteObjectMeta] with the stored bytes. *)
Record Object := { LastModified : Time; Body : bytes }.

(** The state a run reads and changes: the local files and the bucket. *)
Record World := {
  files : gmap string bytes;
  bucket : gmap string Object
}.

(** How the outside answers during one run: which system calls and store
    requests fail, how many bytes a file may hold before a write to it fails,
    how many keys one listing response carries, and what the clocks read. *)
Record Outside := {
  mkdir_fails : string → bool;
  open_fails : string → bool;
  create_fails : string → bool;
  quota : string → option nat;
  remove_fails : string → bool;
  put_fails : string → bool;
  list_fails : bool;
  delete_fails : string → bool;
  max_keys : nat;
  zone_offset : Z;
  now_start : Time;     (* [time.Now()] of the scheduled job's first log line *)
  now_stamp : Time;     (* [time.Now()] that names the run's files *)
  now_put : Time;       (* the store's clock when it accepts the upload *)
  now_prune : Time      (* [time.Now()] in [cleanupOldBackups] *)
}.

(** [compress/gzip]: [gz_encode d] is the whole member written for input
    [d] (header, deflate data, trailer); its last [gz_held d] bytes are still
    inside the writer when [io.Copy] returns and reach the file only in
    [Close]. *)
Record Codec := {
  gz_encode : bytes → bytes;
  gz_held : bytes → nat;
  gz_decode : bytes → option bytes
}.

Definition codec_sound (gz : Codec) : Prop :=
  ∀ d, gz_decode gz (gz_encode gz d) = Some d.

(** A stand-in codec to run the model on concrete files: ten header bytes,
    the data as it is, eight trailer bytes; the header goes out with the
    first data byte. *)
Definition frame_header : bytes :=
  [Byte.x1f; Byte.x8b; Byte.x08; Byte.x00; Byte.x00;
   Byte.x00; Byte.x00; Byte.x00; Byte.x00; Byte.xff].
Definition frame_trailer : bytes := replicate 8 Byte.x00.

Definition frame_decode (z : bytes) : option bytes :=
  let n := (length z - 18)%nat in
  if bool_decide (z = frame_header ++ take n (drop 10 z) ++ frame_trailer)
  then Some (take n (drop 10 z)) else None.

Definition frame_codec : Codec :=
  {| gz_encode d := frame_header ++ d ++ frame_trailer;
     gz_held d := match d with [] => 18%nat | _ => 8%nat end;
     gz_decode := frame_decode |}.

(** State-passing computations over the world that also produce the
    events and the log lines of the run, in order. *)
Record Outcome (A : Type) := {
  value : A;
  world : World;
  events : list Event;
  lines : list LogLine
}.
Arguments value {A} _.
Arguments world {A} _.
Arguments events {A} _.
Arguments lines {A} _.

Definition M (A : Type) : Type := World → Outcome A.

Global Instance M_ret : MRet M :=
  λ A a w, {| value := a; world := w; events := []; lines := [] |}.

Global Instance M_bind : MBind M :=
  λ A B f m w,
    match m w with
    | {| value := a; world := w1; events := e1; lines := l1 |} =>
        match f a w1 with
        | {| value := b; world := w2; events := e2; lines := l2 |} =>
            {| value := b; world := w2; events := e1 ++ e2; lines := l1 ++ l2 |}
        end
    end.

Definition emit (e : Event) : M unit :=
  λ w, {| value := tt; world := w; events := [e]; lines := [] |}.

Definition log (l : LogLine) : M unit :=
  λ w, {| value := tt; world := w; events := []; lines := [l] |}.

Definition set_files (fs : gmap string bytes) : M unit :=
  λ w, {| value := tt; world := {| files := fs; bucket := bucket w |};
          events := []; lines := [] |}.

Definition set_bucket (b : gmap string Object) : M unit :=
  λ w, {| value := tt; world := {| files := files w; bucket := b |};
          events := []; lines := [] |}.

Definition get_files : M (gmap string bytes) :=
  λ w, {| value := files w; world := w; events := []; lines := [] |}.

Definition get_bucket : M (gmap string Object) :=
  λ w, {| value := bucket w; world := w; events := []; lines := [] |}.

(** Keys are listed in their byte order; a key is under a prefix when it
    starts with it. *)
Definition key_le (a b : string * Object) : Prop := String.le a.1 b.1.

Global Instance key_le_dec : RelDecision key_le.
Proof. intros a b. unfold key_le. apply _. Defined.

Definition under (prefix : string) (key : string) : Prop :=
  strings.HasPrefix key prefix = true.

Global Instance under_dec prefix key : Decision (under prefix key).
Proof. unfold under. apply _. Defined.

Section Run.

Context (out : Outside) (gz : Codec).

(** *** [os] and [io] *)

(** [os.MkdirAll]: [true] when it succeeds.  Directories are not part of
    the world; whether one can be made is the outside's answer. *)
Definition MkdirAll (path : string) : M bool :=
  mret (negb (mkdir_fails out path)).

(** [os.Open]: succeeds on an existing file the outside lets us open. *)
Definition Open (path : string) : M bool :=
  fs ← get_files;
  mret (negb (open_fails out path) && bool_decide (is_Some (fs !! path))).

(** [os.Create]: creates the file or truncates it. *)
Definition Create (path : string) : M bool :=
  if create_fails out path then mret false
  else fs ← get_files; set_files (<[path := []]> fs);; mret true.

(** Appending [data] to an open file: all of it, or as much as the quota
    admits together with an error. *)
Definition write (path : string) (data : bytes) : M bool :=
  fs ← get_files;
  let old := default [] (fs !! path) in
  match quota out path with
  | Some n =>
      if bool_decide (length (old ++ data) ≤ n)%nat
      then set_files (<[path := old ++ data]> fs);; mret true
      else set_files (<[path := take (n `max` length old) (old ++ data)]> fs);;
           mret false
  | None => set_files (<[path := old ++ data]> fs);; mret true
  end.

(** The bytes a reader of [path] gets, read when the copy runs. *)
Definition read (path : string) : M bytes :=
  fs ← get_files; mret (default [] (fs !! path)).

(** [os.Remove]; the caller drops its result. *)
Definition Remove (path : string) : M unit :=
  emit (ERemove path);;
  if remove_fails out path then mret tt
  else fs ← get_files; set_files (delete path fs).

(** *** [createBackup] *)
Definition createBackup (dbPath backupPath : string) : M (option Error) :=
  emit (EStage Snapshot);;
  ok ← MkdirAll (filepath.Dir backupPath);
  if negb ok then mret (Some ErrCreateBackupDir) else
  ok ← Open dbPath;
  if negb ok then mret (Some ErrOpenDatabase) else
  ok ← Create backupPath;
  if negb ok then mret (Some ErrCreateBackupFile) else
  data ← read dbPath;
  ok ← write backupPath data;
  if negb ok then mret (Some ErrCopyDatabase) else
  mret None.

(** *** [compressFile]

    [io.Copy(gw, src)] pushes the member through the gzip writer, which
    passes on all but the held bytes; the deferred [gw.Close()] writes the
    held bytes unless a write already failed, and its result is dropped. *)
Definition gzClose (dstPath : string) (failed : bool) (held : bytes) : M bool :=
  if failed then mret false else write dstPath held.

Definition compressFile (srcPath dstPath : string) : M (option Error) :=
  emit (EStage Compress);;
  ok ← Open srcPath;
  if negb ok then mret (Some ErrOpenSource) else
  ok ← Create dstPath;
  if negb ok then mret (Some ErrCreateCompressed) else
  data ← read srcPath;
  let member := gz_encode gz data in
  let passed := (length member - gz_held gz data)%nat in
  copied ← write dstPath (take passed member);
  _ ← gzClose dstPath (negb copied) (drop passed member);
  if negb copied then mret (Some ErrCompress) else
  mret None.

(** *** The store: [PutObject], [ListObjectsV2], [DeleteObject]

    All three requests name the bucket [cfg.R2Bucket]; the world holds
    the contents of that bucket. *)
Definition remote_prefix : string := "backups/".

Definition PutObject (key : string) (data : bytes) : M bool :=
  emit (EPut key);;
  if put_fails out key then mret false
  else b ← get_bucket;
       set_bucket (<[key := {| LastModified := now_put out; Body := data |}]> b);;
       mret true.

(** One response of [ListObjectsV2]: the objects under the prefix in key
    order, at most [max_keys] of them (1000 for S3 and R2). *)
Definition listing (prefix : string) (b : gmap string Object)
    : list (string * Object) :=
  take (max_keys out)
       (merge_sort key_le (map_to_list (filter (λ kv, under prefix kv.1) b))).

Definition ListObjectsV2 (prefix : string) : M (option (list (string * Object))) :=
  emit (EList prefix);;
  if list_fails out then mret None
  else b ← get_bucket; mret (Some (listing prefix b)).

Definition DeleteObject (key : string) : M bool :=
  emit (EDelete key);;
  if delete_fails out key then mret false
  else b ← get_bucket; set_bucket (delete key b);; mret true.

(** *** [uploadToR2] *)
Definition object_key (filePath : string) : string :=
  remote_prefix +:+ filepath.Base filePath.

Definition uploadToR2 (cfg : Config) (filePath : string) : M (option Error) :=
  emit (EStage Upload);;
  ok ← Open filePath;
  if negb ok then mret (Some ErrOpenForUpload) else
  data ← read filePath;
  ok ← PutObject (object_key filePath) data;
  if negb ok then mret (Some ErrUpload) else
  mret None.

(** *** [cleanupOldBackups] *)
Definition cutoff_of (now : Time) (retentionDays : Z) : Time :=
  AddDate now (wrap64 (- retentionDays)).

Definition prune_one (cutoff : Time) (obj : string * Object) : M unit :=
  if Before (LastModified obj.2) cutoff then
    ok ← DeleteObject obj.1;
    if negb ok then log (LDeleteFailed obj.1) else log (LDeletedOld obj.1)
  else mret tt.

Fixpoint prune_each (cutoff : Time) (objs : list (string * Object)) : M unit :=
  match objs with
  | [] => mret tt
  | obj :: objs' => prune_one cutoff obj;; prune_each cutoff objs'
  end.

(** The pruning pass for a given cutoff. *)
Definition prune (cutoff : Time) : M (option Error) :=
  result ← ListObjectsV2 remote_prefix;
  match result with
  | None => mret (Some ErrList)
  | Some contents => prune_each cutoff contents;; mret None
  end.

Definition cleanupOldBackups (cfg : Config) : M (option Error) :=
  emit (EStage Prune);;
  prune (cutoff_of (now_prune out) (RetentionDays cfg)).

(** *** The names of one run *)
Definition dbName (cfg : Config) : string :=
  let name := filepath.Base (HostDBPath cfg) in
  strings.TrimSuffix name (filepath.Ext name).

Definition timestamp : string := Format (zone_offset out) (now_stamp out).

Definition backupFile (cfg : Config) : string :=
  filepath.Join (BackupDir cfg) (dbName cfg +:+ "_backup_" +:+ timestamp +:+ ".sql").

Definition compressedFile (cfg : Config) : string := backupFile cfg +:+ ".gz".

(** *** [runBackup] *)
Definition runBackup (cfg : Config) : M unit :=
  err ← createBackup (DBPath cfg) (backupFile cfg);
  match err with Some e => log (LBackupFailed e) | None =>
  err ← compressFile (backupFile cfg) (compressedFile cfg);
  match err with Some e => log (LCompressionFailed e) | None =>
  err ← uploadToR2 cfg (compressedFile cfg);
  match err with Some e => log (LUploadFailed e) | None =>
  err ← cleanupOldBackups cfg;
  match err with Some e => log (LCleanupWarning e) | None => mret tt end;;
  Remove (backupFile cfg);;
  Remove (compressedFile cfg);;
  log LCompleted
  end end end.

(** *** The function [scheduleBackup] hands to [cron.AddFunc] *)
Definition scheduledJob (cfg : Config) : M unit :=
  log (LStartingScheduled (now_start out));;
  let dbName :=
    let name := filepath.Base (HostDBPath cfg) in
    strings.TrimSuffix name (filepath.Ext name) in
  let timestamp := Format (zone_offset out) (now_stamp out) in
  let backupFile :=
    filepath.Join (BackupDir cfg) (dbName +:+ "_backup_" +:+ timestamp +:+ ".sql") in
  let compressedFile := backupFile +:+ ".gz" in
  err ← createBackup (DBPath cfg) backupFile;
  match err with Some e => log (LBackupFailed e) | None =>
  err ← compressFile backupFile compressedFile;
  match err with Some e => log (LCompressionFailed e) | None =>
  err ← uploadToR2 cfg compressedFile;
  match err with Some e => log (LUploadFailed e) | None =>
  err ← cleanupOldBackups cfg;
  match err with Some e => log (LCleanupWarning e) | None => mret tt end;;
  Remove backupFile;;
  Remove compressedFile;;
  log LScheduledCompleted
  end end end.

End Run.

(** * Vocabulary of the statements *)

(** Whether [os.Open] succeeds on [path] in world [w]. *)
Definition opens (out : Outside) (path : string) (w : World) : bool :=
  negb (open_fails out path) && bool_decide (is_Some (files w !! path)).

(** The keys of the listed objects that are older than the cutoff, in
    listing order, and those among them the store agrees to delete. *)
Definition stale (cutoff : Time) (objs : list (string * Object)) : list string :=
  (filter (λ o, Before (LastModified o.2) cutoff = true) objs).*1.

Definition deleted (out : Outside) (keys : list string) : list string :=
  filter (λ k, delete_fails out k = false) keys.

(** The log line of one delete request. *)
Definition delete_line (out : Outside) (k : string) : LogLine :=
  if delete_fails out k then LDeleteFailed k else LDeletedOld k.

(** The outcome of the job body on the staged path [bf] and the compressed
    path [cf], stage by stage; [final] is its completion line. *)
Definition job_outcome (out : Outside) (gz : Codec) (cfg : Config)
    (bf cf : string) (final : LogLine) (w : World)
    : Outcome unit :=
  let r1 := createBackup out (DBPath cfg) bf w in
  match value r1 with
  | Some e =>
      {| value := tt; world := world r1;
         events := [EStage Snapshot]; lines := [LBackupFailed e] |}
  | None =>
  let r2 := compressFile out gz bf cf (world r1) in
  match value r2 with
  | Some e =>
      {| value := tt; world := world r2;
         events := [EStage Snapshot; EStage Compress];
         lines := [LCompressionFailed e] |}
  | None =>
  let r3 := uploadToR2 out cfg cf (world r2) in
  match value r3 with
  | Some e =>
      {| value := tt; world := world r3;
         events := [EStage Snapshot; EStage Compress] ++ events r3;
         lines := [LUploadFailed e] |}
  | None =>
  let r4 := cleanupOldBackups out cfg (world r3) in
  let r5 := Remove out bf (world r4) in
  let r6 := Remove out cf (world r5) in
  {| value := tt; world := world r6;
     events := [EStage Snapshot; EStage Compress] ++ events r3 ++ events r4 ++
               [ERemove bf; ERemove cf];
     lines := lines r4 ++
              match value r4 with Some e => [LCleanupWarning e] | None => [] end ++
              [final] |}
  end end end.

(** The completion line is the one the two bodies word differently. *)
Definition scheduled_line (l : LogLine) : LogLine :=
  match l with LCompleted => LScheduledCompleted | _ => l end.

(** The stages entered, in order. *)
Definition stages_of (evs : list Event) : list Stage :=
  omap (λ e, match e with EStage s => Some s | _ => None end) evs.

(** The requests of the pruning pass: listings and deletes. *)
Definition is_prune_request (e : Event) : bool :=
  match e with EList _ | EDelete _ => true | _ => false end.

Definition prune_requests (evs : list Event) : list Event :=
  filter (λ e, is_prune_request e = true) evs.

(** The paths handed to [os.Remove]. *)
Definition removals (evs : list Event) : list string :=
  omap (λ e, match e with ERemove p => Some p | _ => None end) evs.

(** Every [PutObject] request names the given key. *)
Definition puts_only (key : string) (evs : list Event) : Prop :=
  Forall (λ e, match e with EPut k => k = key | _ => True end) evs.

(** What a request may name: a key under [backups/] for [PutObject] and
    [DeleteObject], the prefix [backups/] itself for [ListObjectsV2]. *)
Definition within_prefix (e : Event) : Prop :=
  match e with
  | EPut k | EDelete k => under remote_prefix k
  | EList p => p = remote_prefix
  | EStage _ | ERemove _ => True
  end.

(** The objects whose keys are not under [backups/]. *)
Definition outside_prefix (b : gmap string Object) : gmap string Object :=
  filter (λ kv, ¬ under remote_prefix kv.1) b.

(** The listing is complete when the bucket has no more objects under the
    prefix than one response carries. *)
Definition fits_one_response (out : Outside) (prefix : string) (b : gmap string Object) : Prop :=
  (size (filter (λ kv, under prefix kv.1) b) ≤ max_keys out)%nat.

(** The file system raises no error: every directory can be made, every
    existing file opened, every file created and written in full. *)
Definition fs_faultless (out : Outside) : Prop :=
  ∀ p, mkdir_fails out p = false ∧ open_fails out p = false ∧
       create_fails out p = false ∧ quota out p = None.

(** The filename of a path, in the words of the specification: its last
    element, none for a path without one. *)
Definition file_name (p : list ascii) : list ascii :=
  default [] (filepath.last_element p).

(** A name with its extension (the suffix from the last dot) stripped. *)
Definition strip_extension (f : list ascii) : list ascii :=
  match filepath.from_last_dot f with
  | Some x => take (length f - length x) f
  | None => f
  end.

Definition basename (hostPath : string) : string :=
  of_chars (strip_extension (file_name (to_chars hostPath))).

Definition no_slash (l : list ascii) : Prop := Forall (λ c, c ≠ slash) l.

(** A path is open when a further element can be written right after it:
    it is empty or ends in a separator. *)
Definition open_path (q : list ascii) : Prop := q = [] ∨ ∃ q0, q = q0 ++ [slash].

(** An element that [Clean] keeps as it is. *)
Definition plain (e : list ascii) : Prop :=
  no_slash e ∧ e ≠ [] ∧ e ≠ [dot] ∧ e ≠ filepath.dotdot.

(** The file name of the staged file, as characters. *)
Definition staged_name (out : Outside) (cfg : Config) : list ascii :=
  strip_extension (file_name (to_chars (HostDBPath cfg))) ++
  to_chars "_backup_" ++
  format_stamp (zone_offset out) (now_stamp out) ++ to_chars ".sql".

(** The second counter of [time] holds seconds since year 1 in 64 bits. *)
Definition representable (unix_sec : Z) : Prop :=
  min_int <= unix_sec + unixToInternal <= max_int.

(** The six variables [loadConfig] requires. *)
Definition required_variables : list string :=
  ["R2_ACCESS_KEY_ID"; "R2_SECRET_ACCESS_KEY"; "R2_ACCOUNT_ID"; "R2_BUCKET";
   "DB_PATH"; "HOST_DB_PATH"].

(** * A concrete run

    The scenario of the specification: source [app.db] (host path
    [./data/app.db]), a run at 02:00:00 on 1 March 2024 (UTC), retention of 30
    days, one remote backup 45 days old, one 10 days old, and an object that
    is not a backup. *)

Module Scenario.

Definition run_time : Time := {| sec := 1709258400; nsec := 0 |}.

Definition days_before (n : Z) : Time :=
  {| sec := sec run_time - n * 86400; nsec := 0 |}.

Definition outside_with (put_f list_f : bool) (delete_f : string → bool)
    (q : string → option nat) (keys : nat) : Outside :=
  {| mkdir_fails := λ _, false; open_fails := λ _, false;
     create_fails := λ _, false; quota := q; remove_fails := λ _, false;
     put_fails := λ _, put_f; list_fails := list_f; delete_fails := delete_f;
     max_keys := keys; zone_offset := 0;
     now_start := run_time; now_stamp := run_time;
     now_put := {| sec := sec run_time + 1; nsec := 0 |};
     now_prune := {| sec := sec run_time + 2; nsec := 0 |} |}.

Definition quiet : Outside :=
  outside_with false false (λ _, false) (λ _, None) 1000.

Definition cfg : Config :=
  {| R2AccessKeyID := "id"; R2SecretAccessKey := "secret";
     R2AccountID := "account"; R2Bucket := "bucket";
     DBPath := "/data/app.db"; HostDBPath := "./data/app.db";
     BackupDir := "/backups"; RetentionDays := 30 |}.

Definition data : bytes := [Byte.x53; Byte.x51; Byte.x4c].

Definition old_key : string := "backups/app_backup_20240115_020000.sql.gz".
Definition recent_key : string := "backups/app_backup_20240220_020000.sql.gz".
Definition other_key : string := "reports/2023.pdf".

Definition old_object : Object := {| LastModified := days_before 45; Body := [] |}.
Definition recent_object : Object := {| LastModified := days_before 10; Body := [] |}.
Definition other_object : Object := {| LastModified := days_before 400; Body := [] |}.

Definition world0 : World :=
  {| files := {[ "/data/app.db" := data ]};
     bucket := {[ old_key := old_object; recent_key := recent_object;
                  other_key := other_object ]} |}.

Definition cutoff0 : Time := days_before 30.

(** The bucket with one more backup, older still, whose key sorts first. *)
Definition older_key : string := "backups/app_backup_20231201_020000.sql.gz".
Definition older_object : Object := {| LastModified := days_before 91; Body := [] |}.

Definition crowded : World :=
  {| files := files world0;
     bucket := <[ older_key := older_object ]> (bucket world0) |}.

Definition staged : string := "/backups/app_backup_20240301_020000.sql".
Definition compressed : string := "/backups/app_backup_20240301_020000.sql.gz".
Definition new_key : string := "backups/app_backup_20240301_020000.sql.gz".

End Scenario.

(** The compressed path can hold the header and the data, not the trailer. *)
Definition no_room_for_trailer : Outside :=
  Scenario.outside_with false false (λ _, false)
    (λ p, if bool_decide (p = Scenario.compressed) then Some 13%nat else None)
    1000.

(** An environment with [RETENTION_DAYS=-7], and the configuration of the
    scenario with that window. *)
Definition negative_env : gmap string string :=
  {[ "RETENTION_DAYS" := "-7"; "R2_ACCESS_KEY_ID" := "id";
     "R2_SECRET_ACCESS_KEY" := "secret"; "R2_ACCOUNT_ID" := "account";
     "R2_BUCKET" := "bucket"; "DB_PATH" := "/data/app.db";
     "HOST_DB_PATH" := "./data/app.db" ]}.

Definition negative_cfg : Config :=
  {| R2AccessKeyID := "id"; R2SecretAccessKey := "secret";
     R2AccountID := "account"; R2Bucket := "bucket";
     DBPath := "/data/app.db"; HostDBPath := "./data/app.db";
     BackupDir := "/backups"; RetentionDays := -7 |}.

(** The same with the least [int], and an outside whose clocks all read the
    time of the run. *)
Definition least_env : gmap string string :=
  <[ "RETENTION_DAYS" := "-9223372036854775808" ]> negative_env.

Definition least_cfg : Config :=
  {| R2AccessKeyID := "id"; R2SecretAccessKey := "secret";
     R2AccountID := "account"; R2Bucket := "bucket";
     DBPath := "/data/app.db"; HostDBPath := "./data/app.db";
     BackupDir := "/backups"; RetentionDays := min_int |}.

Definition same_clock : Outside :=
  {| mkdir_fails := λ _, false; open_fails := λ _, false;
     create_fails := λ _, false; quota := λ _, None;
     remove_fails := λ _, false; put_fails := λ _, false;
     list_fails := false; delete_fails := λ _, false;
     max_keys := 1000; zone_offset := 0;
     now_start := Scenario.run_time; now_stamp := Scenario.run_time;
     now_put := Scenario.run_time; now_prune := Scenario.run_time |}.

(** * The service: [createS3Client], [scheduleBackup], [main]

    What the start of the process asks of the outside: whether the SDK
    configuration loads and whether cron accepts the schedule.  The scheduled
    job then fires once per element of a list of outsides, one after the
    other; [main] is the service up to the last of these firings (the process
    itself never returns). *)

Record Boot := { sdk_fails : bool; cron_fails : bool }.

(** The endpoint [createS3Client] resolves every service and region to. *)
Definition endpoint (cfg : Config) : string :=
  "https://" +:+ R2AccountID cfg +:+ ".r2.cloudflarestorage.com".

Definition createS3Client (boot : Boot) (cfg : Config) : option string :=
  if sdk_fails boot then None else Some (endpoint cfg).

(** What [log.Fatalf] ends the process with. *)
Inductive Fatal :=
| FatalConfiguration (e : ConfigError)   (* Failed to load configuration *)
| FatalClient                            (* Failed to create S3 client *)
| FatalSchedule.                         (* Failed to schedule backup *)

Inductive ServiceLine :=
| SStarting
| SRunningInitial
| SStarted
| SFatal (f : Fatal)
| SJob (l : LogLine).

Record Service := {
  fatal : option Fatal;
  state : World;
  happened : list Event;
  said : list ServiceLine
}.

(** The firings of the registered function, in order. *)
Fixpoint firings (gz : Codec) (cfg : Config) (outs : list Outside) : M unit :=
  match outs with
  | [] => mret tt
  | out :: outs' => scheduledJob out gz cfg;; firings gz cfg outs'
  end.

(** [scheduleBackup]: [false] when [AddFunc] rejects the schedule. *)
Definition scheduleBackup (boot : Boot) : bool := negb (cron_fails boot).

Definition main (env : gmap string string) (boot : Boot) (first : Outside)
    (gz : Codec) (outs : list Outside) (w : World) : Service :=
  match loadConfig env with
  | inl e =>
      {| fatal := Some (FatalConfiguration e); state := w; happened := [];
         said := [SStarting; SFatal (FatalConfiguration e)] |}
  | inr cfg =>
      match createS3Client boot cfg with
      | None =>
          {| fatal := Some FatalClient; state := w; happened := [];
             said := [SStarting; SFatal FatalClient] |}
      | Some _ =>
          let r := runBackup first gz cfg w in
          if scheduleBackup boot then
            let r' := firings gz cfg outs (world r) in
            {| fatal := None; state := world r';
               happened := events r ++ events r';
               said := [SStarting; SRunningInitial] ++ (SJob <$> lines r) ++
                       [SStarted] ++ (SJob <$> lines r') |}
          else
            {| fatal := Some FatalSchedule; state := world r;
               happened := events r;
               said := [SStarting; SRunningInitial] ++ (SJob <$> lines r) ++
                       [SFatal FatalSchedule] |}
      end
  end.

(** The day count of a proleptic Gregorian date. *)
Definition days_from_civil (y m d : Z) : Z :=
  let y := if m <=? 2 then y - 1 else y in
  let era := y / 400 in
  let yoe := y - era * 400 in
  let doy := (153 * (if 2 <? m then m - 3 else m + 9) + 2) / 5 + d - 1 in
  let doe := yoe * 365 + yoe / 4 - yoe / 100 + doy in
  era * 146097 + doe - 719468.

(** The year a stamp shows. *)
Definition stamp_year (offset : Z) (t : Time) : Z :=
  (civil_from_days ((sec t + offset) / 86400)).1.1.

(** The value [loadConfig] takes for the retention window. *)
Definition retention_of (env : gmap string string) : option Z :=
  if bool_decide (Getenv env "RETENTION_DAYS" = "") then Some 30
  else Sscanf_d (Getenv env "RETENTION_DAYS").

(** Where the number token of [Sscanf] ends: at the end of the input or at a
    character that is neither a digit nor an underscore. *)
Definition token_ends (rest : list ascii) : Prop :=
  match rest with [] => True | c :: _ => is_number_char c = false end.

(** The keys of the [PutObject] requests, in order. *)
Definition puts (evs : list Event) : list string :=
  omap (λ e, match e with EPut k => Some k | _ => None end) evs.

(** The runs begun: a run enters its snapshot stage once, first of all. *)
Definition runs_begun (evs : list Event) : nat :=
  length (omap (λ e, match e with EStage Snapshot => Some tt | _ => None end)
            evs).

(** The keys of the [DeleteObject] requests, in order. *)
Definition delete_requests (evs : list Event) : list string :=
  omap (λ e, match e with EDelete k => Some k | _ => None end) evs.

(** * Checks of the library models

    The examples of the package documentation, and the scenario of the
    specification (02:00 on 1 March 2024). *)

Example Base_examples :
  map filepath.Base ["/foo/bar/baz.js"; "/foo/bar/baz"; "/foo/bar/baz/";
                     "dev.txt"; "../todo.txt"; ".."; "."; "/"; ""; "///"]
  = ["baz.js"; "baz"; "baz"; "dev.txt"; "todo.txt"; ".."; "."; "/"; "."; "/"].
Proof. vm_compute. reflexivity. Qed.

Example Ext_examples :
  map filepath.Ext ["index"; "index.js"; "main.test.js"; "a.b/c"; "..";
                    "."; "/"; ".bashrc"; "x."]
  = [""; ".js"; ".js"; ""; "."; "."; ""; ".bashrc"; "."].
Proof. vm_compute. reflexivity. Qed.

Example Clean_examples :
  map filepath.Clean ["a/c"; "a//c"; "a/c/."; "a/c/b/.."; "/../a/c";
                      "/../a/b/../././/c"; ""; "/"; "../../x"; "a/../..";
                      "abc/"; "/abc/"; "a/b/../../../c"; "."; "./"]
  = ["a/c"; "a/c"; "a/c"; "a/c"; "/a/c"; "/a/c"; "."; "/"; "../../x"; "..";
     "abc"; "/abc"; "../c"; "."; "."].
Proof. vm_compute. reflexivity. Qed.

Example Dir_examples :
  map filepath.Dir ["/foo/bar/baz.js"; "/foo/bar/baz"; "/foo/bar/baz/";
                    "/dirty//path///"; "dev.txt"; "../todo.txt"; "..";
                    "."; "/"; ""]
  = ["/foo/bar"; "/foo/bar"; "/foo/bar/baz"; "/dirty/path"; "."; "..";
     "."; "."; "/"; "."].
Proof. vm_compute. reflexivity. Qed.

Example Join_examples :
  (filepath.Join "a" "b", filepath.Join "a" "", filepath.Join "" "b",
   filepath.Join "/backups" "app_backup.sql", filepath.Join "a/" "/b",
   filepath.Join "" "")
  = ("a/b", "a", "b", "/backups/app_backup.sql", "a/b", "").
Proof. vm_compute. reflexivity. Qed.

Example TrimSuffix_examples :
  (strings.TrimSuffix "app.db" ".db", strings.TrimSuffix "app.db" ".sql",
   strings.TrimSuffix "app" "", strings.TrimSuffix "." ".")
  = ("app", "app.db", "app", "").
Proof. vm_compute. reflexivity. Qed.

Example Format_examples :
  (Format 0 {| sec := 1709258400; nsec := 0 |},
   Format 10800 {| sec := 1698361200; nsec := 5 |},
   Format 0 {| sec := 0; nsec := 0 |},
   Format 0 {| sec := 951868799; nsec := 0 |},
   Format 0 {| sec := -1; nsec := 0 |})
  = ("20240301_020000", "20231027_020000", "19700101_000000",
     "20000229_235959", "19691231_235959").
Proof. vm_compute. reflexivity. Qed.

Example AddDate_example :
  AddDate {| sec := 1709258400; nsec := 7 |} (-30)
  = {| sec := 1709258400 - 30 * 86400; nsec := 7 |}.
Proof. vm_compute. reflexivity. Qed.

(** * Computations: how outcomes compose *)

Lemma bind_value {A B} (m : M A) (f : A → M B) w :
  value ((m ≫= f) w) = value (f (value (m w)) (world (m w))).
Proof. unfold mbind, M_bind. destruct (m w) as [a w1 e1 l1]; cbn. by destruct (f a w1). Qed.

Lemma bind_world {A B} (m : M A) (f : A → M B) w :
  world ((m ≫= f) w) = world (f (value (m w)) (world (m w))).
Proof. unfold mbind, M_bind. destruct (m w) as [a w1 e1 l1]; cbn. by destruct (f a w1). Qed.

Lemma bind_events {A B} (m : M A) (f : A → M B) w :
  events ((m ≫= f) w) = events (m w) ++ events (f (value (m w)) (world (m w))).
Proof. unfold mbind, M_bind. destruct (m w) as [a w1 e1 l1]; cbn. by destruct (f a w1). Qed.

Lemma bind_lines {A B} (m : M A) (f : A → M B) w :
  lines ((m ≫= f) w) = lines (m w) ++ lines (f (value (m w)) (world (m w))).
Proof. unfold mbind, M_bind. destruct (m w) as [a w1 e1 l1]; cbn. by destruct (f a w1). Qed.

(** * The stages one by one *)

Ltac unfold_run :=
  unfold createBackup, compressFile, gzClose, uploadToR2, PutObject,
    ListObjectsV2, DeleteObject, MkdirAll, Open, Create, write, read, Remove,
    emit, log, set_files, set_bucket, get_files, get_bucket,
    mbind, M_bind, mret, M_ret.

Ltac run_cases :=
  unfold_run; cbn [value world events lines files bucket negb app];
  repeat (case_match; simplify_eq;
          cbn [value world events lines files bucket negb app] in *).

Section Stages.

Context (out : Outside) (gz : Codec).

Lemma createBackup_events src dst w :
  events (createBackup out src dst w) = [EStage Snapshot].
Proof. run_cases; reflexivity. Qed.

Lemma createBackup_lines src dst w : lines (createBackup out src dst w) = [].
Proof. run_cases; reflexivity. Qed.

Lemma createBackup_bucket src dst w :
  bucket (world (createBackup out src dst w)) = bucket w.
Proof. run_cases; reflexivity. Qed.

Lemma compressFile_events src dst w :
  events (compressFile out gz src dst w) = [EStage Compress].
Proof. run_cases; reflexivity. Qed.

Lemma compressFile_lines src dst w : lines (compressFile out gz src dst w) = [].
Proof. run_cases; reflexivity. Qed.

Lemma compressFile_bucket src dst w :
  bucket (world (compressFile out gz src dst w)) = bucket w.
Proof. run_cases; reflexivity. Qed.

Lemma uploadToR2_lines cfg path w : lines (uploadToR2 out cfg path w) = [].
Proof. run_cases; reflexivity. Qed.

Lemma uploadToR2_files cfg path w :
  files (world (uploadToR2 out cfg path w)) = files w.
Proof. run_cases; reflexivity. Qed.

Lemma Remove_events path w : events (Remove out path w) = [ERemove path].
Proof. run_cases; reflexivity. Qed.

Lemma Remove_lines path w : lines (Remove out path w) = [].
Proof. run_cases; reflexivity. Qed.

Lemma Remove_bucket path w : bucket (world (Remove out path w)) = bucket w.
Proof. run_cases; reflexivity. Qed.

Lemma uploadToR2_unfold cfg path w :
  uploadToR2 out cfg path w
  = if opens out path w then
      if put_fails out (object_key path) then
        {| value := Some ErrUpload; world := w;
           events := [EStage Upload; EPut (object_key path)]; lines := [] |}
      else
        {| value := None;
           world := {| files := files w;
                       bucket := <[object_key path :=
                                     {| LastModified := now_put out;
                                        Body := default [] (files w !! path) |}]>
                                 (bucket w) |};
           events := [EStage Upload; EPut (object_key path)]; lines := [] |}
    else {| value := Some ErrOpenForUpload; world := w;
            events := [EStage Upload]; lines := [] |}.
Proof. unfold opens. run_cases; reflexivity. Qed.

Lemma stale_cons cutoff o objs :
  stale cutoff (o :: objs)
  = if Before (LastModified o.2) cutoff then o.1 :: stale cutoff objs
    else stale cutoff objs.
Proof.
  unfold stale. rewrite filter_cons.
  destruct (Before (LastModified o.2) cutoff); by case_decide.
Qed.

Lemma prune_each_cons cutoff o objs w :
  prune_each out cutoff (o :: objs) w
  = (prune_one out cutoff o ≫= λ _, prune_each out cutoff objs) w.
Proof. reflexivity. Qed.

Lemma prune_each_events cutoff objs w :
  events (prune_each out cutoff objs w) = EDelete <$> stale cutoff objs.
Proof.
  revert w. induction objs as [|o objs IH]; intros w; [done|].
  rewrite prune_each_cons, bind_events, IH, stale_cons.
  unfold prune_one. run_cases; reflexivity.
Qed.

Lemma prune_each_lines cutoff objs w :
  lines (prune_each out cutoff objs w) = delete_line out <$> stale cutoff objs.
Proof.
  revert w. induction objs as [|o objs IH]; intros w; [done|].
  rewrite prune_each_cons, bind_lines, IH, stale_cons.
  unfold prune_one. run_cases; rewrite ?fmap_cons; unfold delete_line.
  all: try match goal with H : delete_fails _ _ = _ |- _ => rewrite H end.
  all: reflexivity.
Qed.

Lemma prune_each_files cutoff objs w :
  files (world (prune_each out cutoff objs w)) = files w.
Proof.
  revert w. induction objs as [|o objs IH]; intros w; [done|].
  rewrite prune_each_cons, bind_world, IH.
  unfold prune_one. run_cases; reflexivity.
Qed.

Lemma prune_each_bucket cutoff objs w k :
  bucket (world (prune_each out cutoff objs w)) !! k
  = if decide (k ∈ deleted out (stale cutoff objs)) then None else bucket w !! k.
Proof.
  revert w. induction objs as [|o objs IH]; intros w.
  { cbn. case_decide as H; [|done]. by apply elem_of_nil in H. }
  rewrite prune_each_cons, bind_world, IH, stale_cons. unfold deleted.
  destruct (Before (LastModified o.2) cutoff) eqn:Hb.
  - rewrite filter_cons. unfold prune_one. rewrite Hb.
    destruct (delete_fails out o.1) eqn:Hd.
    + destruct (decide (true = false)) as [?|_]; [done|].
      unfold_run; cbn. rewrite Hd. reflexivity.
    + destruct (decide (false = false)) as [_|?]; [|done].
      assert (bucket (world ((DeleteObject out o.1 ≫= λ ok,
                if negb ok then log (LDeleteFailed o.1) else log (LDeletedOld o.1)) w))
              = delete o.1 (bucket w)) as ->.
      { unfold_run; cbn. rewrite Hd. reflexivity. }
      destruct (decide (k = o.1)) as [->|Hne].
      * rewrite lookup_delete_eq.
        destruct (decide (o.1 ∈ o.1 :: _)) as [_|Hn];
          [by destruct (decide _)|].
        exfalso. apply Hn. by left.
      * rewrite lookup_delete_ne by done.
        destruct (decide (k ∈ filter _ (stale cutoff objs))) as [Hin|Hin];
          destruct (decide (k ∈ o.1 :: _)) as [Hin'|Hin']; try done.
        -- exfalso. apply Hin'. by right.
        -- exfalso. by apply elem_of_cons in Hin' as [?|?].
  - unfold prune_one. rewrite Hb. reflexivity.
Qed.

Lemma prune_unfold cutoff w :
  prune out cutoff w
  = if list_fails out
    then {| value := Some ErrList; world := w;
            events := [EList remote_prefix]; lines := [] |}
    else let r := prune_each out cutoff (listing out remote_prefix (bucket w)) w in
         {| value := None; world := world r;
            events := EList remote_prefix :: events r; lines := lines r |}.
Proof.
  unfold prune. unfold_run. cbn.
  destruct (list_fails out); [reflexivity|]. cbn.
  destruct (prune_each _ _ _ _). cbn. by rewrite !app_nil_r.
Qed.

Lemma prune_files cutoff w : files (world (prune out cutoff w)) = files w.
Proof.
  rewrite prune_unfold. destruct (list_fails out); [done|].
  apply prune_each_files.
Qed.

Lemma prune_events cutoff w :
  events (prune out cutoff w)
  = EList remote_prefix ::
    (if list_fails out then []
     else EDelete <$> stale cutoff (listing out remote_prefix (bucket w))).
Proof.
  rewrite prune_unfold. destruct (list_fails out); [done|].
  cbn. by rewrite prune_each_events.
Qed.

Lemma prune_lines cutoff w :
  lines (prune out cutoff w)
  = if list_fails out then []
    else delete_line out <$> stale cutoff (listing out remote_prefix (bucket w)).
Proof.
  rewrite prune_unfold. destruct (list_fails out); [done|].
  apply prune_each_lines.
Qed.

Lemma prune_value cutoff w :
  value (prune out cutoff w) = if list_fails out then Some ErrList else None.
Proof. rewrite prune_unfold. by destruct (list_fails out). Qed.

Lemma prune_bucket cutoff w k :
  bucket (world (prune out cutoff w)) !! k
  = if list_fails out then bucket w !! k
    else if decide (k ∈ deleted out (stale cutoff (listing out remote_prefix (bucket w))))
         then None else bucket w !! k.
Proof.
  rewrite prune_unfold. destruct (list_fails out); [done|].
  apply prune_each_bucket.
Qed.

End Stages.

(** * The scheduled job and the startup run *)

Lemma scheduled_line_delete_lines out (keys : list string) :
  scheduled_line <$> (delete_line out <$> keys) = delete_line out <$> keys.
Proof.
  induction keys as [|k keys IH]; [done|]. cbn. rewrite IH. f_equal.
  unfold delete_line. by destruct (delete_fails out k).
Qed.

Lemma cleanupOldBackups_unfold out cfg w :
  cleanupOldBackups out cfg w
  = let r := prune out (cutoff_of (now_prune out) (RetentionDays cfg)) w in
    {| value := value r; world := world r;
       events := EStage Prune :: events r; lines := lines r |}.
Proof.
  unfold cleanupOldBackups. unfold mbind, M_bind, emit. cbn.
  by destruct (prune _ _ _).
Qed.

Section Job.

Context (out : Outside) (gz : Codec) (cfg : Config).

Ltac stage_facts :=
  repeat match goal with
  | E : createBackup ?o ?a ?b ?w = _ |- _ =>
      pose proof (createBackup_events o a b w);
      pose proof (createBackup_lines o a b w);
      rewrite E in *; clear E
  | E : compressFile ?o ?g ?a ?b ?w = _ |- _ =>
      pose proof (compressFile_events o g a b w);
      pose proof (compressFile_lines o g a b w);
      rewrite E in *; clear E
  | E : uploadToR2 ?o ?c ?a ?w = _ |- _ =>
      pose proof (uploadToR2_lines o c a w);
      rewrite E in *; clear E
  | E : Remove ?o ?a ?w = _ |- _ =>
      pose proof (Remove_events o a w);
      pose proof (Remove_lines o a w);
      rewrite E in *; clear E
  end; cbn [value world events lines] in *; subst.

Lemma job_body_outcome bf cf final w :
  (createBackup out (DBPath cfg) bf ≫= λ err,
   match err with Some e => log (LBackupFailed e) | None =>
   compressFile out gz bf cf ≫= λ err,
   match err with Some e => log (LCompressionFailed e) | None =>
   uploadToR2 out cfg cf ≫= λ err,
   match err with Some e => log (LUploadFailed e) | None =>
   cleanupOldBackups out cfg ≫= λ err,
   match err with Some e => log (LCleanupWarning e) | None => mret tt end ≫= λ _,
   Remove out bf ≫= λ _, Remove out cf ≫= λ _, log final
   end end end) w
  = job_outcome out gz cfg bf cf final w.
Proof.
  unfold job_outcome. unfold mbind, M_bind.
  destruct (createBackup out (DBPath cfg) bf w) as [[e|] w1 ev1 l1] eqn:E1;
    cbn [value world events lines log]; [by stage_facts|].
  destruct (compressFile out gz bf cf w1) as [[e|] w2 ev2 l2] eqn:E2;
    cbn [value world events lines log]; [by stage_facts|].
  destruct (uploadToR2 out cfg cf w2) as [[e|] w3 ev3 l3] eqn:E3;
    cbn [value world events lines log].
  { stage_facts. by rewrite app_nil_r. }
  destruct (cleanupOldBackups out cfg w3) as [v4 w4 ev4 l4] eqn:E4.
  assert (∀ w', match v4 with Some e => log (LCleanupWarning e) | None => mret () end w'
          = {| value := tt; world := w'; events := [];
               lines := match v4 with Some e => [LCleanupWarning e] | None => [] end |})
    as -> by by destruct v4.
  cbn [value world events lines log].
  destruct (Remove out bf w4) as [[] w5 ev5 l5] eqn:E5.
  cbn [value world events lines log].
  destruct (Remove out cf w5) as [[] w6 ev6 l6] eqn:E6.
  cbn [value world events lines log]. clear E4. stage_facts. cbn.
  by rewrite <- ?app_assoc.
Qed.

Lemma runBackup_outcome w :
  runBackup out gz cfg w
  = job_outcome out gz cfg (backupFile out cfg) (compressedFile out cfg) LCompleted w.
Proof. apply job_body_outcome. Qed.

Lemma scheduledJob_outcome w :
  scheduledJob out gz cfg w
  = let r := job_outcome out gz cfg (backupFile out cfg) (compressedFile out cfg)
               LScheduledCompleted w in
    {| value := tt; world := world r; events := events r;
       lines := LStartingScheduled (now_start out) :: lines r |}.
Proof.
  unfold scheduledJob, compressedFile, backupFile, dbName, timestamp.
  cbv zeta. unfold mbind at 1. unfold M_bind at 1. cbn [log].
  rewrite job_body_outcome. by destruct (job_outcome _ _ _ _ _ _ _) as [[] ? ? ?].
Qed.

End Job.

(** * The scheduled job and the startup run *)

(** C10: the function registered by [scheduleBackup] and [runBackup] go
    through the same stages on the same staged path, compressed path and
    remote key: from the same world, outside and configuration they leave the
    same files and bucket and produce the same events (stages entered, store
    requests, local removals); their logs differ only in the opening line of
    the scheduled job and in the wording of the completion line. *)
Theorem scheduledJob_runBackup_equivalent out gz cfg w :
  world (scheduledJob out gz cfg w) = world (runBackup out gz cfg w) ∧
  events (scheduledJob out gz cfg w) = events (runBackup out gz cfg w) ∧
  lines (scheduledJob out gz cfg w)
  = LStartingScheduled (now_start out) ::
    map scheduled_line (lines (runBackup out gz cfg w)).
Proof.
  rewrite scheduledJob_outcome, runBackup_outcome. cbv zeta.
  cbn [value world events lines]. unfold job_outcome.
  destruct (value (createBackup _ _ _ _)); [done|].
  destruct (value (compressFile _ _ _ _ _)); [done|].
  destruct (value (uploadToR2 _ _ _ _)); [done|].
  cbn [value world events lines]. split; [done|]. split; [done|].
  f_equal. rewrite cleanupOldBackups_unfold. cbv zeta. cbn [value lines].
  rewrite prune_lines, prune_value, map_app.
  destruct (list_fails out); [done|].
  by rewrite (scheduled_line_delete_lines out).
Qed.

(** * The order of the stages *)

Lemma prune_requests_deletes (keys : list string) :
  prune_requests (EDelete <$> keys) = EDelete <$> keys.
Proof.
  unfold prune_requests.
  induction keys as [|k keys IH]; [done|].
  rewrite fmap_cons, filter_cons_True by done. by rewrite IH.
Qed.

Lemma prune_requests_app evs evs' :
  prune_requests (evs ++ evs') = prune_requests evs ++ prune_requests evs'.
Proof. apply filter_app. Qed.

Lemma stages_of_deletes (keys : list string) : stages_of (EDelete <$> keys) = [].
Proof. by induction keys. Qed.

Lemma stages_of_app evs evs' :
  stages_of (evs ++ evs') = stages_of evs ++ stages_of evs'.
Proof. apply omap_app. Qed.

Lemma cleanupOldBackups_stages out cfg w :
  stages_of (events (cleanupOldBackups out cfg w)) = [Prune].
Proof.
  rewrite cleanupOldBackups_unfold. cbv zeta. cbn [events].
  rewrite prune_events. cbn. destruct (list_fails out); [done|].
  by rewrite stages_of_deletes.
Qed.

Lemma uploadToR2_stages out cfg path w :
  stages_of (events (uploadToR2 out cfg path w)) = [Upload].
Proof. rewrite uploadToR2_unfold. by repeat case_match. Qed.

Lemma uploadToR2_prune_requests out cfg path w :
  prune_requests (events (uploadToR2 out cfg path w)) = [].
Proof. rewrite uploadToR2_unfold. by repeat case_match. Qed.

(** C3: the stages of a run are entered in the order snapshot, compress,
    upload, prune, each only after the one before it returned no error, and
    the run stops at the first stage that fails.  The store receives a
    listing or delete request only in a run whose snapshot, compression and
    upload all succeeded; after a failed upload there is none. *)
Theorem runBackup_stage_sequence out gz cfg w :
  let r1 := createBackup out (DBPath cfg) (backupFile out cfg) w in
  let r2 := compressFile out gz (backupFile out cfg) (compressedFile out cfg)
              (world r1) in
  let r3 := uploadToR2 out cfg (compressedFile out cfg) (world r2) in
  let evs := events (runBackup out gz cfg w) in
  stages_of evs
  = Snapshot ::
    match value r1 with Some _ => [] | None =>
    Compress ::
    match value r2 with Some _ => [] | None =>
    Upload ::
    match value r3 with Some _ => [] | None => [Prune] end end end
  ∧ prune_requests evs
    = match value r1, value r2, value r3 with
      | None, None, None =>
          EList remote_prefix ::
          (if list_fails out then []
           else EDelete <$>
                stale (cutoff_of (now_prune out) (RetentionDays cfg))
                      (listing out remote_prefix (bucket (world r3))))
      | _, _, _ => []
      end.
Proof.
  cbv zeta. rewrite runBackup_outcome. unfold job_outcome.
  destruct (value (createBackup _ _ _ _)) eqn:E1; cbn [events]; [done|].
  destruct (value (compressFile _ _ _ _ _)) eqn:E2; cbn [events]; [done|].
  destruct (value (uploadToR2 _ _ _ _)) eqn:E3; cbn [events].
  - rewrite stages_of_app, uploadToR2_stages.
    by rewrite prune_requests_app, uploadToR2_prune_requests.
  - rewrite !stages_of_app, uploadToR2_stages, cleanupOldBackups_stages.
    split; [done|].
    rewrite !prune_requests_app, uploadToR2_prune_requests.
    rewrite cleanupOldBackups_unfold. cbv zeta. cbn [events].
    rewrite prune_events.
    change (EStage Prune :: EList remote_prefix :: ?l)
      with ([EStage Prune; EList remote_prefix] ++ l).
    rewrite !prune_requests_app.
    destruct (list_fails out); [done|].
    rewrite prune_requests_deletes. cbn. by rewrite app_nil_r.
Qed.

(** * Strings and prefixes *)

Lemma to_chars_app s t : to_chars (s +:+ t) = to_chars s ++ to_chars t.
Proof.
  unfold to_chars. induction s as [|c s IH]; [done|].
  change (String c s +:+ t) with (String c (s +:+ t)). cbn. by rewrite IH.
Qed.

Lemma to_of_chars l : to_chars (of_chars l) = l.
Proof. apply list_ascii_of_string_of_list_ascii. Qed.

Lemma of_chars_app l k : of_chars (l ++ k) = of_chars l +:+ of_chars k.
Proof.
  unfold of_chars. induction l as [|c l IH]; [done|].
  cbn [app string_of_list_ascii]. rewrite IH. reflexivity.
Qed.

Lemma HasPrefix_app p s : strings.HasPrefix (p +:+ s) p = true.
Proof.
  unfold strings.HasPrefix, strings.has_prefix.
  rewrite to_chars_app, take_app_length. by apply bool_decide_eq_true.
Qed.

Lemma object_key_under path : under remote_prefix (object_key path).
Proof. apply HasPrefix_app. Qed.

(** * The listing *)

Section Listing.

Context (out : Outside).

Lemma elem_of_listing prefix b k o :
  (k, o) ∈ listing out prefix b → under prefix k ∧ b !! k = Some o.
Proof.
  unfold listing. intros H%subseteq_take.
  rewrite merge_sort_Permutation in H.
  apply elem_of_map_to_list, map_lookup_filter_Some in H. by destruct H.
Qed.

Lemma listing_complete prefix b k o :
  fits_one_response out prefix b →
  under prefix k → b !! k = Some o → (k, o) ∈ listing out prefix b.
Proof.
  unfold fits_one_response, listing. intros Hfit Hu Hk.
  rewrite take_ge.
  - rewrite merge_sort_Permutation.
    apply elem_of_map_to_list, map_lookup_filter_Some. done.
  - by rewrite merge_sort_Permutation, length_map_to_list.
Qed.

Lemma elem_of_stale cutoff objs k :
  k ∈ stale cutoff objs
  ↔ ∃ o, (k, o) ∈ objs ∧ Before (LastModified o) cutoff = true.
Proof.
  unfold stale. rewrite list_elem_of_fmap. split.
  - intros [[k' o] [-> [H1 H2]%list_elem_of_filter]]. by exists o.
  - intros (o & H1 & H2). exists (k, o). split; [done|].
    by apply list_elem_of_filter.
Qed.

Lemma stale_under cutoff prefix b k :
  k ∈ stale cutoff (listing out prefix b) → under prefix k.
Proof.
  intros (o & H & _)%elem_of_stale. by apply elem_of_listing in H as [? _].
Qed.

End Listing.

(** * Objects outside the prefix *)

Lemma outside_prefix_eq (b b' : gmap string Object) :
  (∀ k, ¬ under remote_prefix k → b' !! k = b !! k) →
  outside_prefix b' = outside_prefix b.
Proof.
  intros H. apply map_eq. intros k. unfold outside_prefix.
  rewrite !map_lookup_filter.
  destruct (decide (under remote_prefix k)) as [Hu|Hu].
  - destruct (b' !! k), (b !! k); cbn; by rewrite ?option_guard_False by tauto.
  - by rewrite H.
Qed.

Section Frame.

Context (out : Outside) (gz : Codec).

Lemma prune_frame cutoff w k :
  ¬ under remote_prefix k → bucket (world (prune out cutoff w)) !! k = bucket w !! k.
Proof.
  intros Hk. rewrite prune_bucket. destruct (list_fails out); [done|].
  case_decide as Hd; [|done]. exfalso. apply Hk.
  apply list_elem_of_filter in Hd as [_ Hd]. by eapply stale_under.
Qed.

Lemma Forall_within_deletes cutoff b :
  Forall within_prefix (EDelete <$> stale cutoff (listing out remote_prefix b)).
Proof.
  apply Forall_fmap, Forall_forall. intros k Hk. cbn. by eapply stale_under.
Qed.

Lemma prune_within cutoff w : Forall within_prefix (events (prune out cutoff w)).
Proof.
  rewrite prune_events. constructor; [done|].
  destruct (list_fails out); [constructor|]. apply Forall_within_deletes.
Qed.

Lemma uploadToR2_frame cfg path w k :
  ¬ under remote_prefix k →
  bucket (world (uploadToR2 out cfg path w)) !! k = bucket w !! k.
Proof.
  intros Hk. rewrite uploadToR2_unfold. repeat case_match; try done.
  cbn. apply lookup_insert_ne. intros <-. apply Hk, object_key_under.
Qed.

Lemma uploadToR2_within cfg path w :
  Forall within_prefix (events (uploadToR2 out cfg path w)).
Proof.
  rewrite uploadToR2_unfold.
  repeat case_match; repeat constructor; apply object_key_under.
Qed.

Lemma job_outcome_frame cfg bf cf final w k :
  ¬ under remote_prefix k →
  bucket (world (job_outcome out gz cfg bf cf final w)) !! k = bucket w !! k.
Proof.
  intros Hk. unfold job_outcome.
  destruct (value (createBackup _ _ _ _)); cbn [world].
  { by rewrite createBackup_bucket. }
  destruct (value (compressFile _ _ _ _ _)); cbn [world].
  { by rewrite compressFile_bucket, createBackup_bucket. }
  destruct (value (uploadToR2 _ _ _ _)); cbn [world].
  { by rewrite uploadToR2_frame, compressFile_bucket, createBackup_bucket. }
  rewrite !Remove_bucket, cleanupOldBackups_unfold. cbv zeta. cbn [world].
  by rewrite prune_frame, uploadToR2_frame, compressFile_bucket,
    createBackup_bucket.
Qed.

Lemma job_outcome_within cfg bf cf final w :
  Forall within_prefix (events (job_outcome out gz cfg bf cf final w)).
Proof.
  unfold job_outcome.
  destruct (value (createBackup _ _ _ _)); cbn [events].
  { by repeat constructor. }
  destruct (value (compressFile _ _ _ _ _)); cbn [events].
  { by repeat constructor. }
  destruct (value (uploadToR2 _ _ _ _)); cbn [events].
  { repeat (constructor; [done|]). apply uploadToR2_within. }
  repeat (constructor; [done|]).
  apply Forall_app. split; [apply uploadToR2_within|].
  apply Forall_app. split; [|by repeat constructor].
  rewrite cleanupOldBackups_unfold. cbv zeta. cbn [events].
  constructor; [done|]. apply prune_within.
Qed.

End Frame.

(** C7: a pruning pass, for any cutoff and any bucket, lists with the prefix
    [backups/] and deletes only keys under it, which is also where the upload
    stores its object; the objects whose keys are not under [backups/] are
    the same after the pass, and after the whole run, as before. *)
Theorem pruning_confined_to_prefix out gz cfg cutoff w :
  Forall within_prefix (events (prune out cutoff w)) ∧
  outside_prefix (bucket (world (prune out cutoff w))) = outside_prefix (bucket w) ∧
  Forall within_prefix (events (runBackup out gz cfg w)) ∧
  outside_prefix (bucket (world (runBackup out gz cfg w)))
  = outside_prefix (bucket w).
Proof.
  split; [apply prune_within|].
  split; [apply outside_prefix_eq; intros; by apply prune_frame|].
  rewrite runBackup_outcome.
  split; [apply job_outcome_within|].
  apply outside_prefix_eq; intros; by apply job_outcome_frame.
Qed.

(** * The pruning pass *)

Section Pruning.

Context (out : Outside).

Lemma deleted_listed cutoff b k :
  k ∈ deleted out (stale cutoff (listing out remote_prefix b)) →
  ∃ o, b !! k = Some o ∧ under remote_prefix k ∧
       Before (LastModified o) cutoff = true ∧ delete_fails out k = false.
Proof.
  intros [Hd (o & Hl & Hb)%elem_of_stale]%list_elem_of_filter.
  apply elem_of_listing in Hl as [? ?]. eauto.
Qed.

(** An object that is not older than the cutoff is the same after the pass,
    whatever the store answers. *)
Lemma prune_keeps_recent cutoff w k o :
  bucket w !! k = Some o → Before (LastModified o) cutoff = false →
  bucket (world (prune out cutoff w)) !! k = Some o.
Proof.
  intros Hk Hb. rewrite prune_bucket. destruct (list_fails out); [done|].
  case_decide as Hd; [|done].
  apply deleted_listed in Hd as (o' & Ho' & _ & Hb' & _). congruence.
Qed.

(** The pass adds no object and changes none. *)
Lemma prune_subset cutoff w k o :
  bucket (world (prune out cutoff w)) !! k = Some o → bucket w !! k = Some o.
Proof.
  rewrite prune_bucket. destruct (list_fails out); [done|]. by case_decide.
Qed.

(** With a complete listing, every object under the prefix that is older
    than the cutoff is among the stale keys. *)
Lemma stale_complete cutoff b k o :
  fits_one_response out remote_prefix b →
  under remote_prefix k → b !! k = Some o →
  Before (LastModified o) cutoff = true →
  k ∈ stale cutoff (listing out remote_prefix b).
Proof.
  intros Hfit Hu Hk Hb. apply elem_of_stale. exists o. split; [|done].
  by apply listing_complete.
Qed.

End Pruning.

(** C2 (as amended): for every cutoff, after a pruning pass whose listing
    request succeeds and whose one response holds every object under the
    prefix, an object under the prefix is gone exactly when its last-modified
    time is strictly before the cutoff and the store accepted its delete;
    otherwise it is there unchanged. *)
Theorem pruning_pass_exact out cutoff w k o :
  list_fails out = false →
  fits_one_response out remote_prefix (bucket w) →
  under remote_prefix k →
  bucket w !! k = Some o →
  bucket (world (prune out cutoff w)) !! k
  = if Before (LastModified o) cutoff && negb (delete_fails out k)
    then None else Some o.
Proof.
  intros Hl Hfit Hu Hk. rewrite prune_bucket, Hl.
  case_decide as Hd.
  - apply deleted_listed in Hd as (o' & Ho' & _ & Hb & Hf).
    assert (o' = o) as -> by congruence. by rewrite Hb, Hf.
  - destruct (Before (LastModified o) cutoff) eqn:Hb; [|done].
    destruct (delete_fails out k) eqn:Hf; [done|].
    exfalso. apply Hd. apply list_elem_of_filter. split; [done|].
    by eapply stale_complete.
Qed.

Example scenario_run :
  let r := runBackup Scenario.quiet frame_codec Scenario.cfg Scenario.world0 in
  map_to_list (files (world r)) = [("/data/app.db", Scenario.data)] ∧
  bucket (world r) !! Scenario.old_key = None ∧
  bucket (world r) !! Scenario.recent_key = Some Scenario.recent_object ∧
  bucket (world r) !! Scenario.other_key = Some Scenario.other_object ∧
  gz_decode frame_codec <$> (Body <$> bucket (world r) !! Scenario.new_key)
  = Some (Some Scenario.data) ∧
  events r = [EStage Snapshot; EStage Compress; EStage Upload;
              EPut Scenario.new_key; EStage Prune; EList "backups/";
              EDelete Scenario.old_key;
              ERemove Scenario.staged; ERemove Scenario.compressed] ∧
  lines r = [LDeletedOld Scenario.old_key; LCompleted].
Proof. vm_compute. repeat split; reflexivity. Qed.

(** C2, witness: the 45-day-old backup of the scenario is gone after the
    pass. *)
Lemma pruning_pass_exact_witness :
  bucket (world (prune Scenario.quiet Scenario.cutoff0 Scenario.world0))
    !! Scenario.old_key
  = if Before (LastModified Scenario.old_object) Scenario.cutoff0
       && negb (delete_fails Scenario.quiet Scenario.old_key)
    then None else Some Scenario.old_object.
Proof.
  apply pruning_pass_exact;
    [reflexivity | vm_compute; lia | reflexivity | vm_compute; reflexivity].
Defined.

(** C2, counterexample: an object under the prefix that is older than the
    cutoff is still in the bucket after the pass when the store refuses its
    delete, when the listing request fails, and when the listing response
    (here of one key) ends before it. *)
Lemma pruning_pass_leaves_stale_object :
  let k := Scenario.old_key in
  let o := Scenario.old_object in
  let C := Scenario.cutoff0 in
  let w := Scenario.world0 in
  let refusing := Scenario.outside_with false false (λ _, true) (λ _, None) 1000 in
  let unlisted := Scenario.outside_with false true (λ _, false) (λ _, None) 1000 in
  let short := Scenario.outside_with false false (λ _, false) (λ _, None) 1 in
  under remote_prefix k ∧ bucket w !! k = Some o ∧
  Before (LastModified o) C = true ∧
  bucket (world (prune refusing C w)) !! k = Some o ∧
  bucket (world (prune unlisted C w)) !! k = Some o ∧
  bucket Scenario.crowded !! k = Some o ∧
  bucket (world (prune short C Scenario.crowded)) !! k = Some o.
Proof. vm_compute. repeat split; reflexivity. Qed.

(** * Delete failures during pruning *)

Lemma app_ne_self (s t : string) : t ≠ "" → s +:+ t ≠ s.
Proof.
  intros Ht H. apply Ht. apply (inj (String.app s)).
  rewrite H. clear. induction s as [|c s IH]; [done|].
  change (String c s +:+ "") with (String c (s +:+ "")). by rewrite <- IH.
Qed.

Lemma compressedFile_ne out cfg : compressedFile out cfg ≠ backupFile out cfg.
Proof. by apply app_ne_self. Qed.

Lemma Remove_files out path w :
  files (world (Remove out path w))
  = if remove_fails out path then files w else delete path (files w).
Proof. run_cases; reflexivity. Qed.

Lemma cleanupOldBackups_files out cfg w :
  files (world (cleanupOldBackups out cfg w)) = files w.
Proof. rewrite cleanupOldBackups_unfold. apply prune_files. Qed.

(** C4: in a run whose snapshot, compression, upload and listing succeed, a
    delete request is sent for every listed object older than the cutoff,
    whichever of these requests the store refuses; each refusal is one log
    line of its own, the run then removes its two local files and logs its
    completion, and no stage is reported as failed. *)
Theorem delete_failures_do_not_stop_the_run out gz cfg w :
  let bf := backupFile out cfg in
  let cf := compressedFile out cfg in
  let r1 := createBackup out (DBPath cfg) bf w in
  let r2 := compressFile out gz bf cf (world r1) in
  let r3 := uploadToR2 out cfg cf (world r2) in
  let run := runBackup out gz cfg w in
  let keys := stale (cutoff_of (now_prune out) (RetentionDays cfg))
                    (listing out remote_prefix (bucket (world r3))) in
  value r1 = None → value r2 = None → value r3 = None →
  list_fails out = false →
  events run
  = [EStage Snapshot; EStage Compress; EStage Upload; EPut (object_key cf);
     EStage Prune; EList remote_prefix] ++
    (EDelete <$> keys) ++ [ERemove bf; ERemove cf] ∧
  lines run = (delete_line out <$> keys) ++ [LCompleted] ∧
  files (world run) !! bf
  = (if remove_fails out bf then files (world r2) !! bf else None) ∧
  files (world run) !! cf
  = (if remove_fails out cf then files (world r2) !! cf else None).
Proof.
  cbv zeta. intros E1 E2 E3 Hl.
  rewrite runBackup_outcome. unfold job_outcome. rewrite E1, E2, E3.
  cbn [events lines world].
  rewrite cleanupOldBackups_unfold. cbv zeta. cbn [events lines value world].
  rewrite prune_events, prune_lines, prune_value, Hl.
  rewrite !Remove_files, prune_files, uploadToR2_files.
  split; [|split; [|split]].
  - revert E3. rewrite uploadToR2_unfold. repeat case_match; try done.
  - done.
  - pose proof (compressedFile_ne out cfg).
    destruct (remove_fails out (compressedFile out cfg));
      destruct (remove_fails out (backupFile out cfg));
      by simplify_map_eq.
  - pose proof (compressedFile_ne out cfg).
    destruct (remove_fails out (compressedFile out cfg));
      destruct (remove_fails out (backupFile out cfg));
      by simplify_map_eq.
Qed.

(** C4, witness: the scenario with a store that refuses every delete. *)
Lemma delete_failures_do_not_stop_the_run_witness :
  let out := Scenario.outside_with false false (λ _, true) (λ _, None) 1000 in
  let run := runBackup out frame_codec Scenario.cfg Scenario.world0 in
  events run
  = [EStage Snapshot; EStage Compress; EStage Upload; EPut Scenario.new_key;
     EStage Prune; EList remote_prefix; EDelete Scenario.old_key;
     ERemove Scenario.staged; ERemove Scenario.compressed] ∧
  lines run = [LDeleteFailed Scenario.old_key; LCompleted] ∧
  files (world run) !! Scenario.staged = None ∧
  files (world run) !! Scenario.compressed = None.
Proof.
  exact (delete_failures_do_not_stop_the_run
           (Scenario.outside_with false false (λ _, true) (λ _, None) 1000)
           frame_codec Scenario.cfg Scenario.world0
           ltac:(vm_compute; reflexivity) ltac:(vm_compute; reflexivity)
           ltac:(vm_compute; reflexivity) ltac:(reflexivity)).
Defined.

(** * Local files after a run *)

(** When a stage fails the run returns at once: nothing is removed, and the
    files are those the failing stage left. *)
Lemma failed_run_removes_nothing out gz cfg w :
  let bf := backupFile out cfg in
  let cf := compressedFile out cfg in
  let r1 := createBackup out (DBPath cfg) bf w in
  let r2 := compressFile out gz bf cf (world r1) in
  let r3 := uploadToR2 out cfg cf (world r2) in
  let run := runBackup out gz cfg w in
  match value r1, value r2, value r3 with
  | None, None, None => True
  | Some _, _, _ =>
      files (world run) = files (world r1) ∧
      removals (events run) = []
  | None, _, _ =>
      files (world run) = files (world r2) ∧
      removals (events run) = []
  end.
Proof.
  cbv zeta. rewrite runBackup_outcome. unfold job_outcome.
  destruct (value (createBackup _ _ _ _)); cbn [world events]; [done|].
  destruct (value (compressFile _ _ _ _ _)); cbn [world events]; [done|].
  destruct (value (uploadToR2 _ _ _ _)) eqn:E; cbn [world events]; [|done].
  rewrite uploadToR2_files. split; [done|].
  rewrite uploadToR2_unfold. by repeat case_match.
Qed.

(** C1, at a failing input: in the scenario with a store that refuses the
    upload, the run ends with the staged file and the compressed file still
    on disk and without a removal attempted. *)
Lemma upload_failure_leaves_local_files :
  let out := Scenario.outside_with true false (λ _, false) (λ _, None) 1000 in
  let run := runBackup out frame_codec Scenario.cfg Scenario.world0 in
  lines run = [LUploadFailed ErrUpload] ∧
  events run = [EStage Snapshot; EStage Compress; EStage Upload;
                EPut Scenario.new_key] ∧
  files (world run) !! Scenario.staged = Some Scenario.data ∧
  files (world run) !! Scenario.compressed
  = Some (gz_encode frame_codec Scenario.data).
Proof. vm_compute. repeat split; reflexivity. Qed.

(** * A compressed file without its trailer *)

(** C6, at a failing input: the write of the trailer in [gw.Close()] fails,
    [compressFile] returns no error, the file is the member cut before its
    trailer, it does not decode, and the run uploads it and reports
    completion. *)
Lemma compressFile_succeeds_without_trailer :
  let out := no_room_for_trailer in
  let r1 := createBackup out "/data/app.db" Scenario.staged Scenario.world0 in
  let r2 := compressFile out frame_codec Scenario.staged Scenario.compressed
              (world r1) in
  let run := runBackup out frame_codec Scenario.cfg Scenario.world0 in
  let cut := frame_header ++ Scenario.data in
  value r2 = None ∧
  files (world r2) !! Scenario.compressed = Some cut ∧
  gz_encode frame_codec Scenario.data = cut ++ frame_trailer ∧
  gz_decode frame_codec cut = None ∧
  Body <$> bucket (world run) !! Scenario.new_key = Some cut ∧
  lines run = [LDeletedOld Scenario.old_key; LCompleted].
Proof. vm_compute. repeat split; reflexivity. Qed.

(** * Snapshot, compress, decompress *)

Section RoundTrip.

Context (out : Outside) (gz : Codec).
Hypothesis faultless : fs_faultless out.

Lemma createBackup_faultless src dst w data :
  files w !! src = Some data → src ≠ dst →
  value (createBackup out src dst w) = None ∧
  files (world (createBackup out src dst w)) = <[dst := data]> (files w).
Proof.
  intros Hsrc Hne. unfold_run.
  destruct (faultless (filepath.Dir dst)) as (-> & _).
  destruct (faultless src) as (_ & -> & _).
  destruct (faultless dst) as (_ & _ & -> & ->).
  cbn. rewrite (bool_decide_eq_true_2 (is_Some (files w !! src))) by eauto.
  cbn. rewrite lookup_insert_eq, lookup_insert_ne, Hsrc by done. cbn.
  by rewrite insert_insert_eq.
Qed.

Lemma compressFile_faultless src dst w data :
  files w !! src = Some data → src ≠ dst →
  value (compressFile out gz src dst w) = None ∧
  files (world (compressFile out gz src dst w))
  = <[dst := gz_encode gz data]> (files w).
Proof.
  intros Hsrc Hne. unfold_run.
  destruct (faultless src) as (_ & -> & _).
  destruct (faultless dst) as (_ & _ & -> & ->).
  cbn. rewrite (bool_decide_eq_true_2 (is_Some (files w !! src))) by eauto.
  cbn. split; [done|].
  rewrite !lookup_insert_eq, (lookup_insert_ne _ dst src), Hsrc by done.
  cbn. by rewrite !insert_insert_eq, take_drop.
Qed.

End RoundTrip.

(** C8: with a sound codec and a file system that raises no error, taking a
    snapshot of a readable source file to a staged path other than the source
    and compressing the staged file both succeed, and the compressed file
    decompresses to exactly the bytes the source held when the snapshot was
    taken. *)
Theorem snapshot_compress_decompress out gz src staged compressed w data :
  codec_sound gz →
  fs_faultless out →
  files w !! src = Some data →
  src ≠ staged → staged ≠ compressed →
  let r1 := createBackup out src staged w in
  let r2 := compressFile out gz staged compressed (world r1) in
  value r1 = None ∧ value r2 = None ∧
  files (world r1) !! staged = Some data ∧
  gz_decode gz <$> files (world r2) !! compressed = Some (Some data).
Proof.
  intros Hgz Hout Hsrc Hne Hne'. cbv zeta.
  destruct (createBackup_faultless out Hout src staged w data Hsrc Hne)
    as [E1 F1].
  assert (files (world (createBackup out src staged w)) !! staged = Some data)
    as Hst by (by rewrite F1, lookup_insert_eq).
  destruct (compressFile_faultless out gz Hout staged compressed _ data Hst Hne')
    as [E2 F2].
  rewrite E1, E2, F2, lookup_insert_eq. cbn. by rewrite Hgz.
Qed.

Lemma frame_codec_sound : codec_sound frame_codec.
Proof.
  intros d. unfold frame_codec, gz_decode, gz_encode, frame_decode.
  assert (length (frame_header ++ d ++ frame_trailer) - 18 = length d)%nat as ->.
  { rewrite !length_app. cbn. lia. }
  change (drop 10 (frame_header ++ d ++ frame_trailer)) with (d ++ frame_trailer).
  rewrite take_app_length. by rewrite bool_decide_eq_true_2.
Qed.

Lemma quiet_faultless : fs_faultless Scenario.quiet.
Proof. intros p. by repeat split. Qed.

(** C8, witness: the scenario's source file through the stand-in codec. *)
Lemma snapshot_compress_decompress_witness :
  let r1 := createBackup Scenario.quiet "/data/app.db" Scenario.staged
              Scenario.world0 in
  let r2 := compressFile Scenario.quiet frame_codec Scenario.staged
              Scenario.compressed (world r1) in
  value r1 = None ∧ value r2 = None ∧
  files (world r1) !! Scenario.staged = Some Scenario.data ∧
  gz_decode frame_codec <$> files (world r2) !! Scenario.compressed
  = Some (Some Scenario.data).
Proof.
  apply snapshot_compress_decompress;
    [apply frame_codec_sound | apply quiet_faultless | reflexivity
    | discriminate | discriminate].
Defined.

(** * The remote key *)

Section PathLemmas.

Import filepath.

Lemma split_nonempty p : split p ≠ [].
Proof. destruct p as [|c p]; cbn; [done|]. by repeat case_match. Qed.

Lemma split_no_slash e : no_slash e → split e = [e].
Proof.
  induction 1 as [|c e Hc _ IH]; [done|]. cbn.
  unfold is_slash. rewrite bool_decide_eq_false_2 by done. by rewrite IH.
Qed.

Lemma split_app_slash a b : split (a ++ slash :: b) = split a ++ split b.
Proof.
  induction a as [|c a IH]; cbn.
  - unfold is_slash. by rewrite bool_decide_eq_true_2.
  - rewrite IH. destruct (is_slash c); [done|].
    pose proof (split_nonempty a). by destruct (split a).
Qed.

Lemma split_elements_no_slash p : Forall no_slash (split p).
Proof.
  induction p as [|c p IH]; cbn; [repeat constructor|].
  destruct (is_slash c) eqn:Hc; [constructor; [constructor|done]|].
  assert (c ≠ slash) as Hne.
  { intros ->. unfold is_slash in Hc. by rewrite bool_decide_eq_true_2 in Hc. }
  destruct (split p) as [|e es]; [by repeat constructor|].
  inversion IH; subst. constructor; [|done]. by constructor.
Qed.

Lemma join_snoc es e :
  join (es ++ [e]) = match es with [] => e | _ => join es ++ slash :: e end.
Proof.
  induction es as [|e1 es IH]; [done|].
  destruct es as [|e2 es]; [done|].
  change (join ((e1 :: e2 :: es) ++ [e]))
    with (e1 ++ slash :: join ((e2 :: es) ++ [e])).
  rewrite IH. change (join (e1 :: e2 :: es)) with (e1 ++ slash :: join (e2 :: es)).
  by rewrite <- app_assoc.
Qed.

Lemma split_open q e :
  open_path q → no_slash e → ∃ es, split (q ++ e) = es ++ [e].
Proof.
  intros [->|[q0 ->]] He.
  - exists []. by apply split_no_slash.
  - exists (split q0). rewrite <- app_assoc. cbn [app].
    by rewrite split_app_slash, (split_no_slash e).
Qed.

Lemma clean_step_plain rooted kept e : plain e → clean_step rooted kept e = e :: kept.
Proof.
  intros (_ & H1 & H2 & H3). unfold clean_step.
  by rewrite !bool_decide_eq_false_2.
Qed.

Lemma clean_open q e :
  open_path q → plain e → ∃ q', open_path q' ∧ clean (q ++ e) = q' ++ e.
Proof.
  intros Hq He. destruct (split_open q e Hq (proj1 He)) as [es Hes].
  unfold clean. destruct (q ++ e) as [|c p] eqn:Hp.
  { apply app_eq_nil in Hp as [_ ->]. by destruct He as (_ & ? & _). }
  rewrite Hes, fold_left_app. cbn [fold_left].
  rewrite clean_step_plain by done. cbn [rev]. rewrite join_snoc.
  set (kept := fold_left _ es []).
  destruct (rev kept) as [|k ks] eqn:Hk.
  - destruct (is_rooted (c :: p)).
    + exists [slash]. split; [right; by exists []|done].
    + exists []. split; [by left|]. destruct e; [|done].
      by destruct He as (_ & ? & _).
  - generalize (join (k :: ks)). intros body.
    destruct (is_rooted (c :: p)).
    + exists (slash :: body ++ [slash]). split.
      * right. by exists (slash :: body).
      * cbn. by rewrite <- app_assoc.
    + exists (body ++ [slash]). split.
      * right. by exists body.
      * rewrite <- app_assoc. cbn [app].
        destruct (body ++ slash :: e) eqn:Hb; [|done].
        by apply app_eq_nil in Hb as [_ ?].
Qed.

Lemma base_open q e : open_path q → no_slash e → e ≠ [] → base (q ++ e) = e.
Proof.
  intros Hq He Hne. destruct (split_open q e Hq He) as [es Hes].
  unfold base. destruct (q ++ e) as [|c p] eqn:Hp.
  { apply app_eq_nil in Hp as [_ ->]. done. }
  unfold last_element. rewrite Hes, filter_app.
  rewrite (filter_cons_True _ e) by done. cbn.
  by rewrite last_snoc.
Qed.

End PathLemmas.

Section NameLemmas.

Import filepath strings.

Lemma from_last_dot_suffix e x : from_last_dot e = Some x → ∃ pre, e = pre ++ x.
Proof.
  revert x. induction e as [|c e IH]; intros x; cbn; [done|].
  destruct (from_last_dot e) as [y|] eqn:Hy.
  - intros [= <-]. destruct (IH y eq_refl) as [pre ->]. by exists (c :: pre).
  - case_bool_decide; [|done]. intros [= <-]. by exists [].
Qed.

Lemma trim_suffix_ext e :
  no_slash e → trim_suffix e (ext e) = strip_extension e.
Proof.
  intros He.
  assert (ext e = default [] (from_last_dot e)) as ->.
  { unfold ext. by rewrite split_no_slash. }
  unfold strip_extension, trim_suffix, has_suffix.
  destruct (from_last_dot e) as [x|] eqn:Hx; cbn [default].
  - destruct (from_last_dot_suffix e x Hx) as [pre ->].
    rewrite bool_decide_eq_true_2; [reflexivity|].
    by rewrite length_app, Nat.add_sub, drop_app_length.
  - cbn [length]. rewrite Nat.sub_0_r, drop_all, firstn_all.
    by rewrite bool_decide_eq_true_2.
Qed.

Lemma strip_extension_no_slash e : no_slash e → no_slash (strip_extension e).
Proof.
  intros He. unfold strip_extension.
  destruct (from_last_dot e); [by apply Forall_take|done].
Qed.

(** The name [runBackup] computes is the filename without its extension,
    after a separator when the host path consists of separators only. *)
Lemma stem_of_host host :
  ∃ s, (s = [] ∨ s = [slash]) ∧
       trim_suffix (base host) (ext (base host))
       = s ++ strip_extension (file_name host) ∧
       no_slash (strip_extension (file_name host)).
Proof.
  unfold file_name, base. destruct host as [|c host]; [by exists []; repeat split; [left|constructor] |].
  destruct (last_element (c :: host)) as [e|] eqn:He; cbn [default].
  - assert (no_slash e) as Hns.
    { unfold last_element in He. apply last_Some_elem_of in He.
      apply list_elem_of_filter in He as [_ He].
      pose proof (split_elements_no_slash (c :: host)) as H.
      by eapply Forall_forall in H. }
    exists []. split; [by left|]. split; [by apply trim_suffix_ext|].
    by apply strip_extension_no_slash.
  - exists [slash]. split; [by right|]. split; [by vm_compute|]. constructor.
Qed.

Lemma digit_char_not_slash d : digit_char d ≠ slash.
Proof.
  unfold digit_char.
  destruct (Z.to_nat d) as [|[|[|[|[|[|[|[|[|[|n]]]]]]]]]]; cbn; try done.
  by destruct n.
Qed.

Lemma digits_rev_no_slash fuel n : no_slash (digits_rev fuel n).
Proof.
  revert n. induction fuel as [|fuel IH]; intros n; cbn; [constructor|].
  constructor; [apply digit_char_not_slash|].
  destruct (n <? 10); [constructor|apply IH].
Qed.

Lemma append_int_no_slash x width : no_slash (append_int x width).
Proof.
  unfold append_int, itoa_abs. apply Forall_app. split.
  - destruct (x <? 0); by repeat constructor.
  - apply Forall_app. split.
    + by apply Forall_replicate.
    + apply Forall_rev, digits_rev_no_slash.
Qed.

Lemma format_stamp_no_slash offset t : no_slash (format_stamp offset t).
Proof.
  unfold format_stamp. destruct (civil_from_days _) as [[y m] d].
  pose proof append_int_no_slash as H. unfold no_slash in *.
  rewrite !Forall_app. repeat split; try apply H.
  by repeat constructor.
Qed.

(** The stamp has the shape [YYYYMMDD_HHMMSS] for the years 0 to 9999, and
    does not depend on the fraction of the second. *)
Lemma civil_from_days_bounds z :
  1 <= (civil_from_days z).1.2 <= 12 ∧ 1 <= (civil_from_days z).2 <= 31.
Proof.
  unfold civil_from_days. cbv zeta. cbn [fst snd].
  set (z' := z + 719468). set (era := z' / 146097).
  set (doe := z' - era * 146097).
  assert (0 <= doe < 146097) as Hdoe.
  { unfold doe, era. pose proof (Z.mod_pos_bound z' 146097).
    pose proof (Z.div_mod z' 146097). lia. }
  clearbody doe. clear z' era z.
  set (yoe := (doe - doe / 1460 + doe / 36524 - doe / 146096) / 365).
  set (doy := doe - (365 * yoe + yoe / 4 - yoe / 100)).
  assert (0 <= doy <= 365) as Hdoy.
  { unfold doy, yoe. Z.div_mod_to_equations. lia. }
  clearbody doy. clear yoe.
  set (mp := (5 * doy + 2) / 153).
  assert (0 <= mp <= 11) by (unfold mp; Z.div_mod_to_equations; lia).
  assert (1 <= doy - (153 * mp + 2) / 5 + 1 <= 31)
    by (unfold mp; Z.div_mod_to_equations; lia).
  clearbody mp.
  destruct (mp <? 10) eqn:E; [apply Z.ltb_lt in E|apply Z.ltb_ge in E]; lia.
Qed.

Lemma digits_rev_length fuel k n :
  0 <= n < 10 ^ Z.of_nat (S k) → (length (digits_rev fuel n) ≤ S k)%nat.
Proof.
  revert k n. induction fuel as [|fuel IH]; intros k n Hn; cbn [digits_rev length].
  { lia. }
  destruct (n <? 10) eqn:Hlt; cbn [length]; [lia|].
  apply Z.ltb_ge in Hlt.
  destruct k as [|k].
  { cbn in Hn. lia. }
  apply le_n_S, IH.
  rewrite Nat2Z.inj_succ, Z.pow_succ_r in Hn by lia.
  split; [apply Z.div_pos; lia|]. apply Z.div_lt_upper_bound; lia.
Qed.

Lemma append_int_length x k :
  0 <= x < 10 ^ Z.of_nat (S k) → length (append_int x (S k)) = S k.
Proof.
  intros Hx. unfold append_int, itoa_abs.
  rewrite (proj2 (Z.ltb_ge x 0)) by lia.
  rewrite Z.abs_eq by lia.
  pose proof (digits_rev_length (S (Z.to_nat (Z.log2 x))) k x Hx).
  cbn [app]. rewrite length_app, length_replicate, length_rev. lia.
Qed.

Lemma format_stamp_length offset t :
  0 <= (civil_from_days ((sec t + offset) / 86400)).1.1 <= 9999 →
  length (format_stamp offset t) = 15%nat.
Proof.
  intros Hy. unfold format_stamp.
  pose proof (civil_from_days_bounds ((sec t + offset) / 86400)) as [Hm Hd].
  destruct (civil_from_days _) as [[y m] d]. cbn [fst snd] in *.
  pose proof (Z.mod_pos_bound (sec t + offset) 86400) as Hs.
  set (s := (sec t + offset) mod 86400) in *.
  rewrite !length_app.
  rewrite (append_int_length y 3) by (cbn; lia).
  rewrite !(append_int_length _ 1); cbn [length]; try lia; cbn.
  - pose proof (Z.mod_pos_bound s 60). lia.
  - Z.div_mod_to_equations. lia.
  - Z.div_mod_to_equations. lia.
Qed.

Lemma Format_second_resolution offset t t' :
  sec t = sec t' → Format offset t = Format offset t'.
Proof. unfold Format, format_stamp. by intros ->. Qed.

End NameLemmas.

Section RemoteKey.

Import filepath strings.

Context (out : Outside) (cfg : Config).

Lemma staged_name_no_slash : no_slash (staged_name out cfg).
Proof.
  unfold staged_name, no_slash.
  destruct (stem_of_host (to_chars (HostDBPath cfg))) as (_ & _ & _ & Hs).
  pose proof (format_stamp_no_slash (zone_offset out) (now_stamp out)) as Hf.
  unfold no_slash in *. rewrite !Forall_app. repeat split; try done.
  all: by repeat constructor.
Qed.

Lemma staged_name_long : (12 ≤ length (staged_name out cfg))%nat.
Proof. unfold staged_name. rewrite !length_app. cbn. lia. Qed.

Lemma staged_name_plain : plain (staged_name out cfg).
Proof.
  pose proof staged_name_long as Hl.
  split; [apply staged_name_no_slash|].
  repeat split; intros H; rewrite H in Hl; cbn in Hl; lia.
Qed.

Lemma backupFile_chars :
  ∃ q, open_path q ∧ to_chars (backupFile out cfg) = q ++ (staged_name out cfg).
Proof.
  unfold backupFile, Join, dbName, timestamp, TrimSuffix, Base, Ext, Format.
  rewrite !to_of_chars, !to_chars_app, !to_of_chars.
  destruct (stem_of_host (to_chars (HostDBPath cfg))) as (s & Hs & -> & _).
  rewrite <- app_assoc. fold (staged_name out cfg).
  unfold join2.
  destruct (to_chars (BackupDir cfg)) as [|d ds] eqn:Hd.
  - destruct (s ++ (staged_name out cfg)) eqn:Hn.
    { apply app_eq_nil in Hn as [_ Hn].
      pose proof staged_name_long as Hl. rewrite Hn in Hl. cbn in Hl. lia. }
    rewrite <- Hn. apply clean_open; [|apply staged_name_plain].
    destruct Hs as [->| ->]; [by left|right; by exists []].
  - rewrite <- Hd.
    replace (to_chars (BackupDir cfg) ++ slash :: s ++ (staged_name out cfg))
      with ((to_chars (BackupDir cfg) ++ slash :: s) ++ (staged_name out cfg))
      by (by rewrite <- app_assoc).
    apply clean_open; [|apply staged_name_plain].
    right. destruct Hs as [->| ->].
    + by exists (to_chars (BackupDir cfg)).
    + exists (to_chars (BackupDir cfg) ++ [slash]). by rewrite <- app_assoc.
Qed.

End RemoteKey.

(** C5: the key under which a run stores its object is
    [backups/<basename>_backup_<YYYYMMDD_HHMMSS>.sql.gz], where [<basename>]
    is the filename of the host-side source path without its extension and
    the stamp is the run's clock reading formatted to the second; no other
    key is put by the run. *)
Theorem remote_key_format out gz cfg w :
  object_key (compressedFile out cfg)
  = "backups/" +:+ basename (HostDBPath cfg) +:+ "_backup_" +:+
    Format (zone_offset out) (now_stamp out) +:+ ".sql.gz" ∧
  puts_only (object_key (compressedFile out cfg))
            (events (runBackup out gz cfg w)).
Proof.
  split.
  - unfold object_key, compressedFile, filepath.Base, remote_prefix.
    f_equal. rewrite to_chars_app.
    destruct (backupFile_chars out cfg) as (q & Hq & ->).
    rewrite <- app_assoc, base_open; [| done | | ].
    + unfold staged_name, basename, Format.
      rewrite <- !app_assoc, !of_chars_app. reflexivity.
    + apply Forall_app. split; [apply staged_name_no_slash|by repeat constructor].
    + intros H. apply app_eq_nil in H as [_ H]. done.
  - rewrite runBackup_outcome. unfold job_outcome, puts_only.
    destruct (value (createBackup _ _ _ _)); cbn [events]; [by repeat constructor|].
    destruct (value (compressFile _ _ _ _ _)); cbn [events]; [by repeat constructor|].
    assert (Forall (λ e, match e with
                         | EPut k => k = object_key (compressedFile out cfg)
                         | _ => True end)
              (events (uploadToR2 out cfg (compressedFile out cfg)
                 (world (compressFile out gz (backupFile out cfg)
                    (compressedFile out cfg)
                    (world (createBackup out (DBPath cfg) (backupFile out cfg) w)))))))
      as Hup.
    { rewrite uploadToR2_unfold. repeat case_match; by repeat constructor. }
    destruct (value (uploadToR2 _ _ _ _)); cbn [events].
    + repeat (constructor; [done|]). done.
    + repeat (constructor; [done|]).
      apply Forall_app. split; [done|].
      apply Forall_app. split; [|by repeat constructor].
      rewrite cleanupOldBackups_unfold. cbv zeta. cbn [events].
      constructor; [done|]. rewrite prune_events. constructor; [done|].
      destruct (list_fails out); [constructor|].
      by apply Forall_fmap, Forall_true.
Qed.

Example remote_key_scenario :
  object_key (compressedFile Scenario.quiet Scenario.cfg)
  = "backups/app_backup_20240301_020000.sql.gz".
Proof. vm_compute. reflexivity. Qed.

Example basename_examples :
  map basename ["./data/app.db"; "/srv/db/app.sqlite3"; "app"; "a.tar.gz";
                "dir/"; "/"; ""; ".."; ".hidden"]
  = ["app"; "app"; "app"; "a.tar"; "dir"; ""; ""; "."; ""].
Proof. vm_compute. reflexivity. Qed.

(** * Reading the retention window *)

Section Decimal.

Lemma digit_char_elem d : digit_char d ∈ digit_chars.
Proof.
  unfold digit_char, digit_chars.
  destruct (Z.to_nat d) as [|[|[|[|[|[|[|[|[|[|n]]]]]]]]]]; cbn;
    try (destruct n); repeat first [by left | right].
Qed.

Lemma digit_val_char d : 0 <= d < 10 → digit_val (digit_char d) = Some d.
Proof.
  intros H.
  assert (d = 0 ∨ d = 1 ∨ d = 2 ∨ d = 3 ∨ d = 4 ∨ d = 5 ∨ d = 6 ∨ d = 7 ∨
          d = 8 ∨ d = 9) as Hd by lia.
  repeat destruct Hd as [->|Hd]; try subst d; reflexivity.
Qed.

Lemma digits_value_snoc acc tok c :
  digits_value acc (tok ++ [c])
  = match digits_value acc tok, digit_val c with
    | Some v, Some d => Some (v * 10 + d)
    | _, _ => None
    end.
Proof.
  revert acc. induction tok as [|t tok IH]; intros acc; cbn [app digits_value].
  - by destruct (digit_val c).
  - destruct (digit_val t); [apply IH|done].
Qed.

Lemma digits_rev_value fuel n :
  0 <= n < 2 ^ Z.of_nat fuel →
  digits_value 0 (rev (digits_rev fuel n)) = Some n.
Proof.
  revert n. induction fuel as [|fuel IH]; intros n Hn.
  - cbn in *. f_equal. lia.
  - cbn [digits_rev rev]. rewrite digits_value_snoc.
    rewrite digit_val_char by (apply Z.mod_pos_bound; lia).
    destruct (n <? 10) eqn:Hlt.
    + cbn [rev app digits_value]. f_equal. apply Z.ltb_lt in Hlt.
      rewrite Z.mod_small; lia.
    + apply Z.ltb_ge in Hlt. rewrite IH.
      * f_equal. pose proof (Z.div_mod n 10). lia.
      * rewrite Nat2Z.inj_succ, Z.pow_succ_r in Hn by lia.
        split; [apply Z.div_pos; lia|].
        apply Z.div_lt_upper_bound; lia.
Qed.

Lemma itoa_abs_value n : 0 <= n → digits_value 0 (itoa_abs n) = Some n.
Proof.
  intros Hn. unfold itoa_abs. apply digits_rev_value.
  rewrite Nat2Z.inj_succ, Z2Nat.id by apply Z.log2_nonneg.
  destruct (decide (n = 0)) as [->|]; [done|].
  split; [done|]. apply Z.log2_spec. lia.
Qed.

Lemma digits_rev_elems fuel n : Forall (λ c, c ∈ digit_chars) (digits_rev fuel n).
Proof.
  revert n. induction fuel as [|fuel IH]; intros n; cbn; [constructor|].
  constructor; [apply digit_char_elem|].
  destruct (n <? 10); [constructor|apply IH].
Qed.

Lemma itoa_abs_elems n : Forall (λ c, c ∈ digit_chars) (itoa_abs n).
Proof. apply Forall_rev, digits_rev_elems. Qed.

Lemma itoa_abs_nonempty n : itoa_abs n ≠ [].
Proof.
  unfold itoa_abs. cbn [digits_rev rev]. intros H.
  by apply app_eq_nil in H as [_ H].
Qed.

Lemma number_token_digits l :
  Forall (λ c, c ∈ digit_chars) l → number_token l = l.
Proof.
  induction 1 as [|c l Hc _ IH]; [done|]. cbn.
  unfold is_number_char. rewrite bool_decide_eq_true_2 by (by right).
  by rewrite IH.
Qed.

Lemma digit_not_special c :
  c ∈ digit_chars → is_blank c = false ∧ is_newline c = false ∧ is_sign c = false.
Proof.
  unfold digit_chars. rewrite !elem_of_cons, elem_of_nil.
  intros H. repeat destruct H as [->|H]; done.
Qed.

(** The decimal numeral of an [int] reads back as that [int]. *)
Lemma scan_int_itoa z : in_int z → scan_int (itoa z) = Some z.
Proof.
  intros Hz. unfold itoa.
  pose proof (itoa_abs_elems (Z.abs z)) as Hel.
  pose proof (itoa_abs_nonempty (Z.abs z)) as Hne.
  pose proof (itoa_abs_value (Z.abs z) (Z.abs_nonneg z)) as Hv.
  destruct (z <? 0) eqn:Hneg.
  - apply Z.ltb_lt in Hneg. unfold scan_int. cbn [app skip_blanks].
    change (is_blank "-"%char) with false. cbn iota.
    change (is_newline "-"%char) with false.
    change (is_sign "-"%char) with true. cbn iota.
    rewrite bool_decide_eq_true_2 by done.
    rewrite number_token_digits by done.
    destruct (itoa_abs (Z.abs z)) as [|c l] eqn:E; [done|].
    rewrite Hv. rewrite bool_decide_eq_true_2 by (unfold in_int in Hz; lia).
    f_equal. lia.
  - apply Z.ltb_ge in Hneg. unfold scan_int. cbn [app].
    destruct (itoa_abs (Z.abs z)) as [|c l] eqn:E; [done|].
    inversion Hel as [|? ? Hc Hl]; subst.
    destruct (digit_not_special c Hc) as (Hb & Hnl & Hs).
    cbn [skip_blanks]. rewrite Hb, Hnl, Hs.
    rewrite number_token_digits by done.
    rewrite Hv. rewrite bool_decide_eq_true_2 by (unfold in_int in Hz; lia).
    f_equal. lia.
Qed.

End Decimal.

(** * A negative retention window *)

Lemma wrap64_small z : min_int <= z <= max_int → wrap64 z = z.
Proof.
  unfold wrap64, min_int, max_int. intros H.
  rewrite Z.mod_small by lia. lia.
Qed.

Lemma cutoff_of_negative now r :
  min_int < r < 0 →
  representable (sec now - r * 86400) →
  cutoff_of now r = {| sec := sec now - r * 86400; nsec := nsec now |}.
Proof.
  unfold representable, cutoff_of, AddDate. intros Hr Hrep.
  rewrite (wrap64_small (- r)) by (unfold min_int, max_int in *; lia).
  f_equal. rewrite wrap64_small by lia. lia.
Qed.

Lemma Before_cutoff now t r :
  min_int < r < 0 →
  representable (sec now - r * 86400) →
  Before now t = false → Before t (cutoff_of now r) = true.
Proof.
  intros Hr Hrep. rewrite cutoff_of_negative by done.
  unfold Before. cbn [sec nsec]. intros H.
  apply orb_false_iff in H as [H1 H2]. apply Z.ltb_ge in H1.
  apply orb_true_iff. left. apply Z.ltb_lt. lia.
Qed.

Lemma loadConfig_retention env z :
  in_int z →
  Getenv env "RETENTION_DAYS" = of_chars (itoa z) →
  Forall (λ name, Getenv env name ≠ "") required_variables →
  ∃ cfg, loadConfig env = inr cfg ∧ RetentionDays cfg = z.
Proof.
  intros Hz Hs Hreq. unfold loadConfig. rewrite Hs.
  rewrite bool_decide_eq_false_2.
  - unfold Sscanf_d. rewrite to_of_chars, scan_int_itoa by done.
    unfold required_variables in Hreq.
    repeat match goal with
           | H : Forall _ (_ :: _) |- _ => apply Forall_cons in H as [? H]
           end.
    cbn [R2AccessKeyID R2SecretAccessKey R2AccountID R2Bucket DBPath HostDBPath].
    unfold first_unset. rewrite !filter_cons. cbn [snd].
    rewrite !decide_False by done. rewrite filter_nil. cbn.
    eexists. split; reflexivity.
  - intros H. apply (f_equal to_chars) in H. rewrite to_of_chars in H.
    unfold itoa in H. apply app_eq_nil in H as [_ H].
    by apply itoa_abs_nonempty in H.
Qed.

Lemma uploaded_bucket out gz cfg w :
  let bf := backupFile out cfg in
  let cf := compressedFile out cfg in
  let r1 := createBackup out (DBPath cfg) bf w in
  let r2 := compressFile out gz bf cf (world r1) in
  let r3 := uploadToR2 out cfg cf (world r2) in
  value r3 = None →
  ∃ body, bucket (world r3)
          = <[object_key cf := {| LastModified := now_put out; Body := body |}]>
            (bucket w).
Proof.
  cbv zeta. rewrite uploadToR2_unfold.
  repeat case_match; try done. intros _. cbn [world bucket].
  rewrite compressFile_bucket, createBackup_bucket. eauto.
Qed.

(** C9 (as amended): [loadConfig] stores whatever [int] the variable
    [RETENTION_DAYS] spells, zero and negative values included.  For a
    negative window whose negation and cutoff fit the 64-bit counters, the
    cutoff is after the clock reading, so every instant that is not after the
    clock reading is strictly before the cutoff; in a run that reaches
    pruning, with the listing complete, the deletes accepted and no object
    dated after the clock reading, the object just uploaded is in the bucket
    before pruning and no object under the prefix is left after the run. *)
Theorem negative_retention_prunes_every_backup :
  (∀ env z,
     in_int z →
     Getenv env "RETENTION_DAYS" = of_chars (itoa z) →
     Forall (λ name, Getenv env name ≠ "") required_variables →
     ∃ cfg, loadConfig env = inr cfg ∧ RetentionDays cfg = z) ∧
  (∀ out gz cfg w,
     min_int < RetentionDays cfg < 0 →
     representable (sec (now_prune out) - RetentionDays cfg * 86400) →
     let cutoff := cutoff_of (now_prune out) (RetentionDays cfg) in
     let bf := backupFile out cfg in
     let cf := compressedFile out cfg in
     let r1 := createBackup out (DBPath cfg) bf w in
     let r2 := compressFile out gz bf cf (world r1) in
     let r3 := uploadToR2 out cfg cf (world r2) in
     let run := runBackup out gz cfg w in
     Before (now_prune out) cutoff = true ∧
     (∀ t, Before (now_prune out) t = false → Before t cutoff = true) ∧
     (value r1 = None → value r2 = None → value r3 = None →
      list_fails out = false →
      fits_one_response out remote_prefix (bucket (world r3)) →
      (∀ k, delete_fails out k = false) →
      map_Forall (λ _ o, Before (now_prune out) (LastModified o) = false)
                 (bucket w) →
      Before (now_prune out) (now_put out) = false →
      is_Some (bucket (world r3) !! object_key cf) ∧
      ∀ k, under remote_prefix k → bucket (world run) !! k = None)).
Proof.
  split; [exact loadConfig_retention|].
  intros out gz cfg w Hr Hrep. cbv zeta.
  split; [|split].
  - rewrite cutoff_of_negative by done. unfold Before. cbn [sec nsec].
    apply orb_true_iff. left. apply Z.ltb_lt. lia.
  - intros t. by apply Before_cutoff.
  - intros E1 E2 E3 Hl Hfit Hdel Hold Hput.
    destruct (uploaded_bucket out gz cfg w E3) as [body Hb].
    split; [rewrite Hb, lookup_insert_eq; eauto|].
    intros k Hk. rewrite runBackup_outcome. unfold job_outcome.
    rewrite E1, E2, E3. cbn [world].
    rewrite !Remove_bucket, cleanupOldBackups_unfold. cbv zeta. cbn [world].
    destruct (bucket (world (uploadToR2 out cfg (compressedFile out cfg)
      (world (compressFile out gz (backupFile out cfg) (compressedFile out cfg)
         (world (createBackup out (DBPath cfg) (backupFile out cfg) w))))))
      !! k) as [o|] eqn:Ho.
    + rewrite prune_bucket, Hl. rewrite decide_True; [done|].
      apply list_elem_of_filter. split; [apply Hdel|].
      eapply stale_complete; [done..|].
      apply Before_cutoff; [done..|].
      rewrite Hb in Ho. apply lookup_insert_Some in Ho as [[_ <-]|[_ Ho]].
      * done.
      * by eapply (Hold k).
    + destruct (bucket (world (prune out _ _)) !! k) as [o|] eqn:Hp; [|done].
      apply prune_subset in Hp. congruence.
Qed.

(** C9, witness: [RETENTION_DAYS=-7] is accepted, and with a window of -7
    days the run of the scenario leaves no backup in the bucket, the one it
    uploaded included. *)
Lemma negative_retention_prunes_every_backup_witness :
  (∃ cfg, loadConfig negative_env = inr cfg ∧ RetentionDays cfg = -7) ∧
  let run := runBackup Scenario.quiet frame_codec negative_cfg Scenario.world0 in
  ∀ k, under remote_prefix k → bucket (world run) !! k = None.
Proof.
  destruct negative_retention_prunes_every_backup as [Hload Hrun].
  split.
  - apply Hload; [by vm_compute | reflexivity | by repeat constructor].
  - cbv zeta.
    apply (Hrun Scenario.quiet frame_codec negative_cfg Scenario.world0);
      [by vm_compute | by vm_compute | by vm_compute | by vm_compute
      | by vm_compute | reflexivity | vm_compute; lia | reflexivity
      | apply (bool_decide_unpack _); by vm_compute | by vm_compute].
Defined.

(** C9, counterexample: [RETENTION_DAYS=-9223372036854775808] is accepted
    and negative, its negation wraps to itself, the cutoff is not after the
    clock reading, and the backup uploaded by the run, dated by the store at
    that same reading, is still in the bucket after the run. *)
Lemma least_retention_keeps_the_backup :
  let run := runBackup same_clock frame_codec least_cfg Scenario.world0 in
  let cutoff := cutoff_of (now_prune same_clock) (RetentionDays least_cfg) in
  loadConfig least_env = inr least_cfg ∧
  RetentionDays least_cfg < 0 ∧
  wrap64 (- RetentionDays least_cfg) = RetentionDays least_cfg ∧
  Before (now_prune same_clock) cutoff = false ∧
  under remote_prefix Scenario.new_key ∧
  is_Some (bucket (world run) !! Scenario.new_key).
Proof.
  vm_compute. repeat split; try reflexivity. eauto.
Qed.

(** * Further properties of [loadConfig] *)

Lemma scan_int_range s z : scan_int s = Some z → in_int z.
Proof.
  unfold scan_int. destruct (skip_blanks s) as [|c rest]; [done|].
  destruct (is_newline c); [done|].
  destruct (if is_sign c then _ else _) as [neg rest'].
  destruct (number_token rest') as [|t tok]; [done|].
  destruct (digits_value 0 (t :: tok)) as [v|]; [|done].
  case_bool_decide; [|done]. by intros [= <-].
Qed.

Lemma first_unset_None required :
  first_unset required = None ↔ Forall (λ nv, nv.2 ≠ "") required.
Proof.
  unfold first_unset. induction required as [|[n v] l IH]; [by split|].
  rewrite filter_cons, Forall_cons. cbn [snd].
  destruct (decide (v = "")) as [->|Hv].
  - cbn. split; [done|]. by intros [? _].
  - rewrite IH. tauto.
Qed.

Lemma first_unset_Some required n :
  first_unset required = Some n → (n, "") ∈ required.
Proof.
  unfold first_unset. induction required as [|[n' v] l IH]; [done|].
  rewrite filter_cons. cbn [snd].
  destruct (decide (v = "")) as [->|Hv].
  - cbn. intros [= <-]. by left.
  - intros H. right. by apply IH.
Qed.

Lemma loadConfig_unfold env :
  loadConfig env
  = match retention_of env with
    | None => inl InvalidRetentionDays
    | Some days =>
        match first_unset ((λ n, (n, Getenv env n)) <$> required_variables) with
        | Some n => inl (RequiredNotSet n)
        | None =>
            inr {| R2AccessKeyID := Getenv env "R2_ACCESS_KEY_ID";
                   R2SecretAccessKey := Getenv env "R2_SECRET_ACCESS_KEY";
                   R2AccountID := Getenv env "R2_ACCOUNT_ID";
                   R2Bucket := Getenv env "R2_BUCKET";
                   DBPath := Getenv env "DB_PATH";
                   HostDBPath := Getenv env "HOST_DB_PATH";
                   BackupDir := if bool_decide (Getenv env "BACKUP_DIR" = "")
                                then "/backups" else Getenv env "BACKUP_DIR";
                   RetentionDays := days |}
        end
    end.
Proof. reflexivity. Qed.

(** X1: a configuration that [loadConfig] returns has its six required
    fields taken from the environment and not empty, a staging directory that
    is not empty ([/backups] when [BACKUP_DIR] is unset), and a retention
    window within the [int] range that is 30 when [RETENTION_DAYS] is
    unset. *)
Theorem loadConfig_accepted env cfg :
  loadConfig env = inr cfg →
  Forall (λ n, Getenv env n ≠ "") required_variables ∧
  (R2AccessKeyID cfg, R2SecretAccessKey cfg, R2AccountID cfg, R2Bucket cfg,
   DBPath cfg, HostDBPath cfg)
  = (Getenv env "R2_ACCESS_KEY_ID", Getenv env "R2_SECRET_ACCESS_KEY",
     Getenv env "R2_ACCOUNT_ID", Getenv env "R2_BUCKET",
     Getenv env "DB_PATH", Getenv env "HOST_DB_PATH") ∧
  BackupDir cfg ≠ "" ∧
  BackupDir cfg = (if bool_decide (Getenv env "BACKUP_DIR" = "")
                   then "/backups" else Getenv env "BACKUP_DIR") ∧
  in_int (RetentionDays cfg) ∧
  (Getenv env "RETENTION_DAYS" = "" → RetentionDays cfg = 30).
Proof.
  rewrite loadConfig_unfold.
  destruct (retention_of env) as [days|] eqn:Hr; [|done].
  destruct (first_unset _) as [n|] eqn:Hu; [done|].
  intros [= <-]. cbn [R2AccessKeyID R2SecretAccessKey R2AccountID R2Bucket
                       DBPath HostDBPath BackupDir RetentionDays].
  apply first_unset_None in Hu. rewrite Forall_fmap in Hu.
  unfold retention_of in Hr.
  split; [done|]. split; [done|]. split.
  { destruct (bool_decide (Getenv env "BACKUP_DIR" = "")) eqn:Hb; [done|].
    by apply bool_decide_eq_false in Hb. }
  split; [done|]. split.
  - destruct (bool_decide (Getenv env "RETENTION_DAYS" = ""));
      [|by eapply scan_int_range].
    injection Hr as <-. by vm_compute.
  - intros He. rewrite bool_decide_eq_true_2 in Hr by done. congruence.
Qed.

Lemma loadConfig_accepted_witness :
  Forall (λ n, Getenv negative_env n ≠ "") required_variables ∧
  BackupDir negative_cfg ≠ "" ∧ in_int (RetentionDays negative_cfg).
Proof.
  pose proof (loadConfig_accepted negative_env negative_cfg
                ltac:(vm_compute; reflexivity)) as (H1 & _ & H2 & _ & H3 & _).
  exact (conj H1 (conj H2 H3)).
Defined.

(** X2: [loadConfig] rejects the environment exactly when [RETENTION_DAYS]
    is set and does not scan as an [int], or a required variable is unset.
    The retention error is reported first, whatever else is missing; a
    variable reported as not set is one of the six and is unset. *)
Theorem loadConfig_rejected env :
  (loadConfig env = inl InvalidRetentionDays
   ↔ Getenv env "RETENTION_DAYS" ≠ "" ∧
     Sscanf_d (Getenv env "RETENTION_DAYS") = None) ∧
  (∀ n, loadConfig env = inl (RequiredNotSet n) →
        n ∈ required_variables ∧ Getenv env n = "") ∧
  ((∃ cfg, loadConfig env = inr cfg)
   ↔ retention_of env ≠ None ∧
     Forall (λ n, Getenv env n ≠ "") required_variables).
Proof.
  rewrite loadConfig_unfold. unfold retention_of.
  split; [|split].
  - case_bool_decide as He.
    + destruct (first_unset _); split; try done; by intros [? _].
    + destruct (Sscanf_d _) eqn:Hs.
      * destruct (first_unset _); split; try done; by intros [_ ?].
      * by split.
  - intros n. destruct (if bool_decide _ then _ else _); [|done].
    destruct (first_unset _) as [n'|] eqn:Hu; [|done].
    intros [= ->]. apply first_unset_Some in Hu.
    apply list_elem_of_fmap in Hu as (n' & [= -> Hv] & Hin). done.
  - destruct (if bool_decide _ then _ else _) as [days|].
    + destruct (first_unset _) as [n|] eqn:Hu.
      * split; [by intros [? ?]|]. intros [_ H].
        assert (first_unset ((λ n, (n, Getenv env n)) <$> required_variables)
                = None) as Hn by (apply first_unset_None; by rewrite Forall_fmap).
        congruence.
      * apply first_unset_None in Hu. rewrite Forall_fmap in Hu.
        split; [done|]. eauto.
    + split; [by intros [? ?]|]. by intros [? _].
Qed.

Lemma skip_blanks_app pre s :
  Forall (λ c, is_blank c = true) pre → skip_blanks (pre ++ s) = skip_blanks s.
Proof.
  induction 1 as [|c pre Hc _ IH]; [done|]. cbn [app skip_blanks]. by rewrite Hc.
Qed.

Lemma number_token_app ds rest :
  Forall (λ c, c ∈ digit_chars) ds → token_ends rest →
  number_token (ds ++ rest) = ds.
Proof.
  intros Hds Hrest. induction Hds as [|c ds Hc _ IH].
  - destruct rest as [|r rest]; [done|]. cbn in *. by rewrite Hrest.
  - cbn [app number_token]. unfold is_number_char.
    rewrite bool_decide_eq_true_2 by (by right). by rewrite IH.
Qed.

(** [Sscanf] reads the numeral of an [int] after blanks and before whatever
    follows the number token. *)
Lemma scan_int_leading z pre rest :
  in_int z → Forall (λ c, is_blank c = true) pre → token_ends rest →
  scan_int (pre ++ itoa z ++ rest) = Some z.
Proof.
  intros Hz Hpre Hrest. unfold scan_int. rewrite skip_blanks_app by done.
  unfold itoa.
  pose proof (itoa_abs_elems (Z.abs z)) as Hel.
  pose proof (itoa_abs_nonempty (Z.abs z)) as Hne.
  pose proof (itoa_abs_value (Z.abs z) (Z.abs_nonneg z)) as Hv.
  destruct (z <? 0) eqn:Hneg.
  - apply Z.ltb_lt in Hneg. cbn [app skip_blanks].
    change (is_blank "-"%char) with false. cbn iota.
    change (is_newline "-"%char) with false.
    change (is_sign "-"%char) with true. cbn iota.
    rewrite bool_decide_eq_true_2 by done.
    rewrite number_token_app by done.
    destruct (itoa_abs (Z.abs z)) as [|c l] eqn:E; [done|].
    rewrite Hv. rewrite bool_decide_eq_true_2 by (unfold in_int in Hz; lia).
    f_equal. lia.
  - apply Z.ltb_ge in Hneg. cbn [app].
    destruct (itoa_abs (Z.abs z)) as [|c l] eqn:E; [done|].
    inversion Hel as [|? ? Hc Hl]; subst.
    destruct (digit_not_special c Hc) as (Hb & Hnl & Hs).
    cbn [app skip_blanks]. rewrite Hb, Hnl, Hs.
    change (c :: l ++ rest) with ((c :: l) ++ rest).
    rewrite number_token_app by done.
    rewrite Hv. rewrite bool_decide_eq_true_2 by (unfold in_int in Hz; lia).
    f_equal. lia.
Qed.

(** X3: [loadConfig] takes the retention window from the integer at the
    front of [RETENTION_DAYS]: blanks before it are skipped and whatever
    follows the digits (other than a digit or an underscore) is ignored, so
    [RETENTION_DAYS=30days] configures 30 days. *)
Theorem loadConfig_reads_leading_integer env z pre rest :
  in_int z →
  Forall (λ c, is_blank c = true) pre →
  token_ends rest →
  Getenv env "RETENTION_DAYS" = of_chars (pre ++ itoa z ++ rest) →
  Forall (λ n, Getenv env n ≠ "") required_variables →
  ∃ cfg, loadConfig env = inr cfg ∧ RetentionDays cfg = z.
Proof.
  intros Hz Hpre Hrest Hs Hreq. rewrite loadConfig_unfold.
  unfold retention_of, Sscanf_d. rewrite Hs, to_of_chars.
  rewrite bool_decide_eq_false_2.
  - rewrite scan_int_leading by done.
    assert (first_unset ((λ n, (n, Getenv env n)) <$> required_variables) = None)
      as -> by (apply first_unset_None; by rewrite Forall_fmap).
    eauto.
  - intros H. apply (f_equal to_chars) in H. rewrite to_of_chars in H.
    apply app_eq_nil in H as [_ H]. apply app_eq_nil in H as [H _].
    unfold itoa in H. apply app_eq_nil in H as [_ H].
    by apply itoa_abs_nonempty in H.
Qed.

Lemma loadConfig_reads_leading_integer_witness :
  ∃ cfg, loadConfig (<["RETENTION_DAYS" := " 30days"]> negative_env) = inr cfg ∧
         RetentionDays cfg = 30.
Proof.
  apply (loadConfig_reads_leading_integer _ 30 [" "%char] (to_chars "days"));
    [by vm_compute | by repeat constructor | reflexivity | reflexivity
    | by repeat constructor].
Defined.

(** * Further properties of [createBackup] and [compressFile] *)

Section Copies.

Context (out : Outside) (gz : Codec).

Lemma createBackup_unfold src dst w :
  createBackup out src dst w
  = let stop e := {| value := Some e; world := w;
                     events := [EStage Snapshot]; lines := [] |} in
    let wrote e c := {| value := e;
                        world := {| files := <[dst := c]> (files w);
                                    bucket := bucket w |};
                        events := [EStage Snapshot]; lines := [] |} in
    if mkdir_fails out (filepath.Dir dst) then stop ErrCreateBackupDir
    else if negb (opens out src w) then stop ErrOpenDatabase
    else if create_fails out dst then stop ErrCreateBackupFile
    else
      let data := default [] (<[dst := []]> (files w) !! src) in
      match quota out dst with
      | Some n => if bool_decide (length data ≤ n)%nat then wrote None data
                  else wrote (Some ErrCopyDatabase) (take n data)
      | None => wrote None data
      end.
Proof.
  cbv zeta. unfold opens. unfold_run.
  destruct (mkdir_fails out (filepath.Dir dst)); cbn; [done|].
  destruct (open_fails out src); cbn; [done|].
  destruct (bool_decide (is_Some (files w !! src))); cbn; [|done].
  destruct (create_fails out dst); cbn; [done|].
  rewrite lookup_insert_eq. cbn.
  destruct (quota out dst) as [n|]; cbn.
  - destruct (bool_decide _); cbn; rewrite insert_insert_eq; [done|].
    by rewrite Nat.max_0_r.
  - by rewrite insert_insert_eq.
Qed.

Lemma compressFile_unfold src dst w :
  compressFile out gz src dst w
  = let stop e := {| value := Some e; world := w;
                     events := [EStage Compress]; lines := [] |} in
    let wrote e c := {| value := e;
                        world := {| files := <[dst := c]> (files w);
                                    bucket := bucket w |};
                        events := [EStage Compress]; lines := [] |} in
    if negb (opens out src w) then stop ErrOpenSource
    else if create_fails out dst then stop ErrCreateCompressed
    else
      let data := default [] (<[dst := []]> (files w) !! src) in
      let member := gz_encode gz data in
      let passed := (length member - gz_held gz data)%nat in
      match quota out dst with
      | Some n =>
          if bool_decide (passed `min` length member ≤ n)%nat then
            if bool_decide (length member ≤ n)%nat then wrote None member
            else wrote None (take (n `max` (passed `min` length member)) member)
          else wrote (Some ErrCompress) (take (n `min` passed) member)
      | None => wrote None member
      end.
Proof.
  cbv zeta. unfold opens. unfold_run.
  destruct (open_fails out src); cbn; [done|].
  destruct (bool_decide (is_Some (files w !! src))); cbn; [|done].
  destruct (create_fails out dst); cbn; [done|].
  rewrite lookup_insert_eq. cbn.
  set (data := default [] (<[dst:=[]]> (files w) !! src)).
  set (member := gz_encode gz data).
  set (passed := (length member - gz_held gz data)%nat).
  destruct (quota out dst) as [n|]; cbn.
  - rewrite length_take.
    destruct (bool_decide (passed `min` length member ≤ n)%nat); cbn.
    + rewrite lookup_insert_eq. cbn. rewrite take_drop, length_take.
      destruct (bool_decide (length member ≤ n)%nat); cbn;
        by rewrite !insert_insert_eq.
    + rewrite Nat.max_0_r, take_take. by rewrite !insert_insert_eq.
  - rewrite lookup_insert_eq. cbn. by rewrite take_drop, !insert_insert_eq.
Qed.

End Copies.

(** X4: a snapshot and a compression change no file but their destination
    and nothing in the bucket, whatever fails. *)
Theorem copies_touch_only_the_destination out gz src dst w p :
  p ≠ dst →
  files (world (createBackup out src dst w)) !! p = files w !! p ∧
  files (world (compressFile out gz src dst w)) !! p = files w !! p ∧
  bucket (world (createBackup out src dst w)) = bucket w ∧
  bucket (world (compressFile out gz src dst w)) = bucket w.
Proof.
  intros Hp. rewrite createBackup_unfold, compressFile_unfold. cbv zeta.
  repeat split; repeat case_match; cbn [world files bucket];
    by rewrite ?lookup_insert_ne by done.
Qed.

Lemma copies_touch_only_the_destination_witness :
  files (world (createBackup Scenario.quiet "/data/app.db" Scenario.staged
                  Scenario.world0)) !! "/data/app.db"
  = files Scenario.world0 !! "/data/app.db".
Proof.
  apply (copies_touch_only_the_destination Scenario.quiet frame_codec
           "/data/app.db" Scenario.staged Scenario.world0 "/data/app.db").
  discriminate.
Defined.

(** X5: when the source cannot be opened, [createBackup] and [compressFile]
    return an error and leave the world as it is; in particular a file that
    already exists at the destination is not truncated. *)
Theorem unopened_source_changes_nothing out gz src dst w :
  opens out src w = false →
  value (createBackup out src dst w)
  = Some (if mkdir_fails out (filepath.Dir dst) then ErrCreateBackupDir
          else ErrOpenDatabase) ∧
  world (createBackup out src dst w) = w ∧
  value (compressFile out gz src dst w) = Some ErrOpenSource ∧
  world (compressFile out gz src dst w) = w.
Proof.
  intros Ho. rewrite createBackup_unfold, compressFile_unfold. cbv zeta.
  rewrite Ho. cbn [negb]. by destruct (mkdir_fails out _).
Qed.

Lemma unopened_source_changes_nothing_witness :
  let w := {| files := {[ Scenario.staged := Scenario.data ]}; bucket := ∅ |} in
  world (createBackup Scenario.quiet "/data/app.db" Scenario.staged w) = w.
Proof.
  cbv zeta.
  apply (unopened_source_changes_nothing Scenario.quiet frame_codec
           "/data/app.db" Scenario.staged). reflexivity.
Defined.

(** X6: for a source other than the destination, [createBackup] returns no
    error only with the destination holding every byte of the source; when
    the copy fails the destination holds a proper prefix of the source, and
    after any earlier error the world is unchanged. *)
Theorem createBackup_copies_all_or_reports out src dst w data :
  files w !! src = Some data →
  src ≠ dst →
  let r := createBackup out src dst w in
  match value r with
  | None => files (world r) !! dst = Some data
  | Some ErrCopyDatabase =>
      ∃ n, (n < length data)%nat ∧ files (world r) !! dst = Some (take n data)
  | Some _ => world r = w
  end.
Proof.
  intros Hsrc Hne. cbv zeta. rewrite createBackup_unfold. cbv zeta.
  rewrite lookup_insert_ne, Hsrc by done. cbn [default id].
  destruct (mkdir_fails out _); [done|].
  destruct (negb (opens out src w)); [done|].
  destruct (create_fails out dst); [done|].
  destruct (quota out dst) as [n|]; cbn [value world files].
  - case_bool_decide; cbn [value world files].
    + apply lookup_insert_eq.
    + exists n. split; [lia|]. apply lookup_insert_eq.
  - apply lookup_insert_eq.
Qed.

Lemma createBackup_copies_all_or_reports_witness :
  files (world (createBackup Scenario.quiet "/data/app.db" Scenario.staged
                  Scenario.world0)) !! Scenario.staged
  = Some Scenario.data.
Proof.
  exact (createBackup_copies_all_or_reports Scenario.quiet "/data/app.db"
           Scenario.staged Scenario.world0 Scenario.data
           ltac:(reflexivity) ltac:(discriminate)).
Defined.

(** X7: a snapshot onto the source path itself succeeds and leaves the
    file empty: [os.Create] truncates it before [io.Copy] reads it. *)
Theorem createBackup_onto_source_empties_it out path w :
  mkdir_fails out (filepath.Dir path) = false →
  opens out path w = true →
  create_fails out path = false →
  value (createBackup out path path w) = None ∧
  files (world (createBackup out path path w)) !! path = Some [].
Proof.
  intros Hm Ho Hc. rewrite createBackup_unfold. cbv zeta.
  rewrite Hm, Ho, Hc, lookup_insert_eq. cbn [negb default id length].
  destruct (quota out path) as [n|]; cbn [value world files].
  - rewrite bool_decide_eq_true_2 by lia. cbn. by rewrite lookup_insert_eq.
  - by rewrite lookup_insert_eq.
Qed.

Lemma createBackup_onto_source_empties_it_witness :
  files Scenario.world0 !! "/data/app.db" = Some Scenario.data ∧
  files (world (createBackup Scenario.quiet "/data/app.db" "/data/app.db"
                  Scenario.world0)) !! "/data/app.db" = Some [].
Proof.
  split; [reflexivity|].
  apply (createBackup_onto_source_empties_it Scenario.quiet "/data/app.db"
           Scenario.world0); reflexivity.
Defined.

Lemma take_prefix_take {A} (l : list A) (m k : nat) :
  (m ≤ k)%nat → take m l `prefix_of` take k l.
Proof.
  intros H. replace m with (m `min` k)%nat by lia.
  rewrite <- take_take. apply prefix_take.
Qed.

(** X8: for a source other than the destination, what [compressFile]
    leaves at the destination is always a prefix of the gzip member of the
    source.  When it returns no error, every byte the writer had passed on
    before [Close] is there, and the whole member if writes to the
    destination cannot fail; when the copy fails, less than that is there;
    after an earlier error the world is unchanged. *)
Theorem compressFile_writes_a_prefix out gz src dst w data :
  files w !! src = Some data →
  src ≠ dst →
  let r := compressFile out gz src dst w in
  let member := gz_encode gz data in
  let passed := take (length member - gz_held gz data) member in
  match value r with
  | None =>
      ∃ c, files (world r) !! dst = Some c ∧
           passed `prefix_of` c ∧ c `prefix_of` member ∧
           (quota out dst = None → c = member)
  | Some ErrCompress =>
      ∃ c, files (world r) !! dst = Some c ∧
           c `prefix_of` passed ∧ (length c < length passed)%nat
  | Some _ => world r = w
  end.
Proof.
  intros Hsrc Hne. cbv zeta. rewrite compressFile_unfold. cbv zeta.
  rewrite lookup_insert_ne, Hsrc by done. cbn [default id].
  set (member := gz_encode gz data).
  set (held := gz_held gz data).
  destruct (negb (opens out src w)); [done|].
  destruct (create_fails out dst); [done|].
  destruct (quota out dst) as [n|]; cbn [value world files].
  - case_bool_decide as H1; [case_bool_decide as H2|]; cbn [value world files].
    + exists member. rewrite lookup_insert_eq.
      split; [done|]. split; [apply prefix_take|]. done.
    + eexists. rewrite lookup_insert_eq. split; [done|].
      split; [apply take_prefix_take; lia|]. split; [apply prefix_take|done].
    + eexists. rewrite lookup_insert_eq. split; [done|].
      rewrite <- take_take. split; [apply prefix_take|].
      rewrite !length_take. lia.
  - exists member. rewrite lookup_insert_eq.
    split; [done|]. split; [apply prefix_take|]. done.
Qed.

Lemma compressFile_writes_a_prefix_witness :
  let w := world (createBackup no_room_for_trailer "/data/app.db"
                    Scenario.staged Scenario.world0) in
  let r := compressFile no_room_for_trailer frame_codec Scenario.staged
             Scenario.compressed w in
  let member := gz_encode frame_codec Scenario.data in
  let passed := take (length member - gz_held frame_codec Scenario.data)
                  member in
  match value r with
  | None =>
      ∃ c, files (world r) !! Scenario.compressed = Some c ∧
           passed `prefix_of` c ∧ c `prefix_of` member ∧
           (quota no_room_for_trailer Scenario.compressed = None → c = member)
  | Some ErrCompress =>
      ∃ c, files (world r) !! Scenario.compressed = Some c ∧
           c `prefix_of` passed ∧ (length c < length passed)%nat
  | Some _ => world r = w
  end.
Proof.
  exact (compressFile_writes_a_prefix no_room_for_trailer frame_codec
           Scenario.staged Scenario.compressed
           (world (createBackup no_room_for_trailer "/data/app.db"
                     Scenario.staged Scenario.world0))
           Scenario.data ltac:(vm_compute; reflexivity)
           ltac:(discriminate)).
Defined.

(** * Further properties of [uploadToR2] *)

(** X9: an upload that returns no error has stored exactly the bytes of
    the file under its key, dated by the store, replacing whatever was under
    that key and leaving every other object as it was; an upload that returns
    an error has changed nothing, and has sent no request at all when the
    file could not be opened.  No upload changes a local file. *)
Theorem uploadToR2_all_or_nothing out cfg path w :
  let r := uploadToR2 out cfg path w in
  let key := object_key path in
  files (world r) = files w ∧
  match value r with
  | None =>
      ∃ data, files w !! path = Some data ∧
              bucket (world r) !! key
              = Some {| LastModified := now_put out; Body := data |} ∧
              ∀ k, k ≠ key → bucket (world r) !! k = bucket w !! k
  | Some ErrOpenForUpload => world r = w ∧ events r = [EStage Upload]
  | Some _ => world r = w ∧ events r = [EStage Upload; EPut key]
  end.
Proof.
  cbv zeta. rewrite uploadToR2_unfold. unfold opens.
  destruct (open_fails out path); cbn [negb andb]; [done|].
  case_bool_decide as Hf; cbn [negb andb]; [|done].
  destruct (put_fails out (object_key path)); cbn [value world files bucket events];
    [done|].
  split; [done|]. destruct Hf as [data Hd]. exists data. rewrite Hd.
  split; [done|]. split; [apply lookup_insert_eq|].
  intros k Hk. by apply lookup_insert_ne.
Qed.

Lemma of_to_chars_id s : of_chars (to_chars s) = s.
Proof. apply string_of_list_ascii_of_string. Qed.

(** The key is the prefix followed by the cleaned name of the file. *)
Lemma object_key_of_join dir name :
  plain (to_chars name) →
  object_key (filepath.Join dir name) = remote_prefix +:+ name.
Proof.
  intros Hp. unfold object_key, filepath.Base, filepath.Join. f_equal.
  rewrite to_of_chars. rewrite <- (of_to_chars_id name) at 2.
  f_equal. unfold filepath.join2.
  assert (∃ q, open_path q ∧
               match to_chars dir, to_chars name with
               | [], [] => []
               | [], _ => filepath.clean (to_chars name)
               | _, _ => filepath.clean (to_chars dir ++ slash :: to_chars name)
               end = q ++ to_chars name) as (q & Hq & ->).
  { destruct (to_chars dir) as [|d ds] eqn:Hd.
    - destruct (to_chars name) as [|c cs] eqn:Hn.
      { by destruct Hp as (_ & ? & _). }
      rewrite <- Hn in *. apply (clean_open []); [by left|done].
    - rewrite <- Hd.
      replace (to_chars dir ++ slash :: to_chars name)
        with ((to_chars dir ++ [slash]) ++ to_chars name)
        by (by rewrite <- app_assoc).
      apply clean_open; [|done]. right. by exists (to_chars dir). }
  destruct Hp as (Hns & Hne & _). by apply base_open.
Qed.

(** X10: the key of an upload is [backups/] followed by the file's name
    alone: the directory of the file leaves no trace, so files of the same
    name in different directories are stored under one key. *)
Theorem object_key_ignores_directory dir dir' name :
  plain (to_chars name) →
  object_key (filepath.Join dir name) = remote_prefix +:+ name ∧
  object_key (filepath.Join dir name) = object_key (filepath.Join dir' name).
Proof.
  intros Hp. by rewrite !object_key_of_join.
Qed.

Lemma object_key_ignores_directory_witness :
  object_key (filepath.Join "/backups" "app_backup.sql.gz")
  = object_key (filepath.Join "/tmp/../var//staging/" "app_backup.sql.gz").
Proof.
  apply (object_key_ignores_directory "/backups" "/tmp/../var//staging/"
           "app_backup.sql.gz").
  repeat split; [by repeat constructor | discriminate..].
Defined.

(** * Further properties of [cleanupOldBackups] *)

Section MorePruning.

Context (out : Outside).

Lemma prune_each_nothing_stale cutoff objs w :
  stale cutoff objs = [] → prune_each out cutoff objs w
  = {| value := tt; world := w; events := []; lines := [] |}.
Proof.
  revert w. induction objs as [|o objs IH]; intros w Hs; [done|].
  rewrite stale_cons in Hs. rewrite prune_each_cons.
  unfold mbind, M_bind, prune_one.
  destruct (Before (LastModified o.2) cutoff); [done|].
  cbn. by rewrite IH.
Qed.


End MorePruning.

(** X11: once every stale object has been deleted, pruning again with the
    same cutoff sends the listing request and nothing else, and leaves the
    world as it is. *)
Theorem pruning_twice_is_pruning_once out cutoff w :
  list_fails out = false →
  (∀ k, delete_fails out k = false) →
  fits_one_response out remote_prefix (bucket w) →
  let w1 := world (prune out cutoff w) in
  world (prune out cutoff w1) = w1 ∧
  events (prune out cutoff w1) = [EList remote_prefix] ∧
  lines (prune out cutoff w1) = [].
Proof.
  intros Hl Hdel Hfit. cbv zeta.
  set (w1 := world (prune out cutoff w)).
  assert (stale cutoff (listing out remote_prefix (bucket w1)) = []) as Hs.
  { destruct (stale _ _) as [|k ks] eqn:E; [done|]. exfalso.
    assert (k ∈ stale cutoff (listing out remote_prefix (bucket w1))) as Hk
      by (rewrite E; by left).
    apply elem_of_stale in Hk as (o & Hin & Hb).
    apply elem_of_listing in Hin as [Hu Hk1].
    pose proof (prune_subset out cutoff w k o Hk1) as Hk0.
    unfold w1 in Hk1. rewrite prune_bucket, Hl in Hk1.
    rewrite decide_True in Hk1; [done|].
    apply list_elem_of_filter. split; [apply Hdel|].
    by eapply stale_complete. }
  rewrite !prune_unfold, Hl. cbv zeta.
  rewrite prune_each_nothing_stale by done. cbn. by destruct w1.
Qed.

Lemma pruning_twice_is_pruning_once_witness :
  let w1 := world (prune Scenario.quiet Scenario.cutoff0 Scenario.world0) in
  world (prune Scenario.quiet Scenario.cutoff0 w1) = w1 ∧
  events (prune Scenario.quiet Scenario.cutoff0 w1) = [EList remote_prefix] ∧
  lines (prune Scenario.quiet Scenario.cutoff0 w1) = [].
Proof.
  apply pruning_twice_is_pruning_once;
    [reflexivity | reflexivity | vm_compute; lia].
Defined.



(** * Further properties of [runBackup] *)

Section MoreRuns.

Context (out : Outside) (gz : Codec) (cfg : Config).

Lemma createBackup_other src dst w p :
  p ≠ dst → files (world (createBackup out src dst w)) !! p = files w !! p.
Proof.
  intros Hp. rewrite createBackup_unfold. cbv zeta.
  repeat case_match; cbn [world files]; by rewrite ?lookup_insert_ne by done.
Qed.

Lemma compressFile_other src dst w p :
  p ≠ dst → files (world (compressFile out gz src dst w)) !! p = files w !! p.
Proof.
  intros Hp. rewrite compressFile_unfold. cbv zeta.
  repeat case_match; cbn [world files]; by rewrite ?lookup_insert_ne by done.
Qed.

Lemma job_outcome_other bf cf final w p :
  p ≠ bf → p ≠ cf →
  files (world (job_outcome out gz cfg bf cf final w)) !! p = files w !! p.
Proof.
  intros Hb Hc. unfold job_outcome.
  destruct (value (createBackup _ _ _ _)); cbn [world].
  { by rewrite createBackup_other. }
  destruct (value (compressFile _ _ _ _ _)); cbn [world].
  { by rewrite compressFile_other, createBackup_other. }
  destruct (value (uploadToR2 _ _ _ _)); cbn [world].
  { by rewrite uploadToR2_files, compressFile_other, createBackup_other. }
  rewrite !Remove_files.
  assert (∀ fs : gmap string bytes,
            (if remove_fails out cf then
               if remove_fails out bf then fs else delete bf fs
             else delete cf (if remove_fails out bf then fs else delete bf fs))
            !! p = fs !! p) as ->.
  { intros fs. repeat case_match; by rewrite ?lookup_delete_ne by done. }
  by rewrite cleanupOldBackups_files, uploadToR2_files, compressFile_other,
    createBackup_other.
Qed.

Lemma job_outcome_bucket_subset bf cf final w k o :
  k ≠ object_key cf →
  bucket (world (job_outcome out gz cfg bf cf final w)) !! k = Some o →
  bucket w !! k = Some o.
Proof.
  intros Hk. unfold job_outcome.
  destruct (value (createBackup _ _ _ _)); cbn [world].
  { by rewrite createBackup_bucket. }
  destruct (value (compressFile _ _ _ _ _)); cbn [world].
  { by rewrite compressFile_bucket, createBackup_bucket. }
  assert (bucket (world (uploadToR2 out cfg cf
            (world (compressFile out gz bf cf
               (world (createBackup out (DBPath cfg) bf w)))))) !! k
          = bucket w !! k) as Hup.
  { rewrite uploadToR2_unfold.
    repeat case_match; cbn [world bucket];
      by rewrite ?lookup_insert_ne, compressFile_bucket, createBackup_bucket
        by done. }
  destruct (value (uploadToR2 _ _ _ _)); cbn [world].
  { by rewrite Hup. }
  rewrite !Remove_bucket, cleanupOldBackups_unfold. cbv zeta. cbn [world].
  intros H%prune_subset. by rewrite Hup in H.
Qed.

End MoreRuns.

(** X13: a run never changes a local file other than its staged file and
    its compressed file: the database file, like every other file, holds
    after the run, and after a scheduled job, what it held before, whatever
    failed. *)
Theorem run_touches_only_its_two_files out gz cfg w p :
  p ≠ backupFile out cfg →
  p ≠ compressedFile out cfg →
  files (world (runBackup out gz cfg w)) !! p = files w !! p ∧
  files (world (scheduledJob out gz cfg w)) !! p = files w !! p.
Proof.
  intros Hb Hc. rewrite runBackup_outcome, scheduledJob_outcome. cbv zeta.
  cbn [world]. by rewrite !job_outcome_other.
Qed.

Lemma run_touches_only_its_two_files_witness :
  files (world (runBackup Scenario.quiet frame_codec Scenario.cfg
                  Scenario.world0)) !! "/data/app.db"
  = files Scenario.world0 !! "/data/app.db" ∧
  files (world (scheduledJob Scenario.quiet frame_codec Scenario.cfg
                  Scenario.world0)) !! "/data/app.db"
  = files Scenario.world0 !! "/data/app.db".
Proof.
  exact (run_touches_only_its_two_files Scenario.quiet frame_codec
           Scenario.cfg Scenario.world0 "/data/app.db"
           ltac:(vm_compute; discriminate) ltac:(vm_compute; discriminate)).
Defined.

(** X14: a run whose source cannot be opened ends at the snapshot stage with
    the whole world, local files and bucket, as it was, and one log line
    that reports the failed backup. *)
Theorem unreadable_source_run out gz cfg w :
  opens out (DBPath cfg) w = false →
  world (runBackup out gz cfg w) = w ∧
  events (runBackup out gz cfg w) = [EStage Snapshot] ∧
  lines (runBackup out gz cfg w)
  = [LBackupFailed
       (if mkdir_fails out (filepath.Dir (backupFile out cfg))
        then ErrCreateBackupDir else ErrOpenDatabase)].
Proof.
  intros Ho. rewrite runBackup_outcome. unfold job_outcome.
  rewrite createBackup_unfold. cbv zeta. rewrite Ho. cbn [negb].
  by destruct (mkdir_fails out _).
Qed.

Lemma unreadable_source_run_witness :
  let w := {| files := ∅; bucket := bucket Scenario.world0 |} in
  world (runBackup Scenario.quiet frame_codec Scenario.cfg w) = w.
Proof.
  cbv zeta.
  apply (unreadable_source_run Scenario.quiet frame_codec Scenario.cfg).
  reflexivity.
Defined.

(** X15: after a run the bucket holds no object that was not there before,
    unchanged, except under the run's own key. *)
Theorem run_adds_only_its_object out gz cfg w k o :
  k ≠ object_key (compressedFile out cfg) →
  bucket (world (runBackup out gz cfg w)) !! k = Some o →
  bucket w !! k = Some o.
Proof.
  intros Hk. rewrite runBackup_outcome. by apply job_outcome_bucket_subset.
Qed.

Lemma run_adds_only_its_object_witness :
  bucket Scenario.world0 !! Scenario.recent_key = Some Scenario.recent_object.
Proof.
  apply (run_adds_only_its_object Scenario.quiet frame_codec Scenario.cfg
           Scenario.world0 Scenario.recent_key Scenario.recent_object);
    [vm_compute; discriminate | vm_compute; reflexivity].
Defined.

(** X16: the backup a run has uploaded is in the bucket when the run ends,
    with the bytes of the compressed file, provided the time the store gave
    it is not before the cutoff of that run's pruning pass. *)
Theorem fresh_backup_survives out gz cfg w :
  let bf := backupFile out cfg in
  let cf := compressedFile out cfg in
  let r1 := createBackup out (DBPath cfg) bf w in
  let r2 := compressFile out gz bf cf (world r1) in
  let r3 := uploadToR2 out cfg cf (world r2) in
  value r1 = None → value r2 = None → value r3 = None →
  Before (now_put out) (cutoff_of (now_prune out) (RetentionDays cfg)) = false →
  ∃ data, files (world r2) !! cf = Some data ∧
          bucket (world (runBackup out gz cfg w)) !! object_key cf
          = Some {| LastModified := now_put out; Body := data |}.
Proof.
  cbv zeta. intros E1 E2 E3 Hb.
  rewrite runBackup_outcome. unfold job_outcome. rewrite E1, E2, E3.
  cbn [world]. rewrite !Remove_bucket, cleanupOldBackups_unfold.
  cbv zeta. cbn [world].
  revert E3. rewrite uploadToR2_unfold. unfold opens.
  destruct (open_fails out _); cbn [negb andb]; [done|].
  case_bool_decide as Hf; cbn [negb andb]; [|done].
  destruct (put_fails out _); [done|]. intros _.
  destruct Hf as [data Hd]. exists data. split; [done|].
  apply prune_keeps_recent; [|done].
  cbn [world bucket]. rewrite Hd. apply lookup_insert_eq.
Qed.

Lemma fresh_backup_survives_witness :
  ∃ data,
    bucket (world (runBackup Scenario.quiet frame_codec Scenario.cfg
                     Scenario.world0)) !! Scenario.new_key
    = Some {| LastModified := now_put Scenario.quiet; Body := data |}.
Proof.
  destruct (fresh_backup_survives Scenario.quiet frame_codec Scenario.cfg
              Scenario.world0 ltac:(vm_compute; reflexivity)
              ltac:(vm_compute; reflexivity) ltac:(vm_compute; reflexivity)
              ltac:(vm_compute; reflexivity)) as (data & _ & H).
  exists data. exact H.
Defined.

(** X17: when the listing request fails in a run whose earlier stages
    succeeded, nothing is deleted, the failure is logged as a warning, and
    the run still removes its two local files and logs its completion. *)
Theorem listing_failure_is_a_warning out gz cfg w :
  let bf := backupFile out cfg in
  let cf := compressedFile out cfg in
  let r1 := createBackup out (DBPath cfg) bf w in
  let r2 := compressFile out gz bf cf (world r1) in
  let r3 := uploadToR2 out cfg cf (world r2) in
  let run := runBackup out gz cfg w in
  value r1 = None → value r2 = None → value r3 = None →
  list_fails out = true →
  lines run = [LCleanupWarning ErrList; LCompleted] ∧
  events run
  = [EStage Snapshot; EStage Compress; EStage Upload; EPut (object_key cf);
     EStage Prune; EList remote_prefix; ERemove bf; ERemove cf] ∧
  bucket (world run) = bucket (world r3).
Proof.
  cbv zeta. intros E1 E2 E3 Hl.
  rewrite runBackup_outcome. unfold job_outcome. rewrite E1, E2, E3.
  cbn [world events lines]. rewrite !Remove_bucket, cleanupOldBackups_unfold.
  cbv zeta. cbn [world events lines value].
  rewrite prune_unfold, Hl. cbn [world events lines value].
  split; [done|]. split; [|done].
  revert E3. rewrite uploadToR2_unfold. by repeat case_match.
Qed.

Lemma listing_failure_is_a_warning_witness :
  let out := Scenario.outside_with false true (λ _, false) (λ _, None) 1000 in
  lines (runBackup out frame_codec Scenario.cfg Scenario.world0)
  = [LCleanupWarning ErrList; LCompleted].
Proof.
  cbv zeta.
  apply (listing_failure_is_a_warning
           (Scenario.outside_with false true (λ _, false) (λ _, None) 1000)
           frame_codec Scenario.cfg Scenario.world0);
    vm_compute; reflexivity.
Defined.

(** * The service as a whole *)

Section ServiceLemmas.

Context (gz : Codec) (cfg : Config).

Lemma firings_cons out outs w :
  firings gz cfg (out :: outs) w
  = (scheduledJob out gz cfg ≫= λ _, firings gz cfg outs) w.
Proof. reflexivity. Qed.

Lemma firings_frame outs w k :
  ¬ under remote_prefix k →
  bucket (world (firings gz cfg outs w)) !! k = bucket w !! k.
Proof.
  intros Hk. revert w. induction outs as [|out outs IH]; intros w; [done|].
  rewrite firings_cons, bind_world, IH, scheduledJob_outcome.
  cbv zeta. cbn [world]. by apply job_outcome_frame.
Qed.

Lemma firings_within outs w :
  Forall within_prefix (events (firings gz cfg outs w)).
Proof.
  revert w. induction outs as [|out outs IH]; intros w; [constructor|].
  rewrite firings_cons, bind_events. apply Forall_app. split; [|apply IH].
  rewrite scheduledJob_outcome. cbv zeta. cbn [events].
  apply job_outcome_within.
Qed.

Lemma runs_begun_app evs evs' :
  runs_begun (evs ++ evs') = (runs_begun evs + runs_begun evs')%nat.
Proof. unfold runs_begun. by rewrite omap_app, length_app. Qed.

Lemma puts_app evs evs' : puts (evs ++ evs') = puts evs ++ puts evs'.
Proof. apply omap_app. Qed.

Lemma puts_deletes (keys : list string) : puts (EDelete <$> keys) = [].
Proof. by induction keys. Qed.

Lemma runs_begun_deletes (keys : list string) :
  runs_begun (EDelete <$> keys) = 0%nat.
Proof. by induction keys. Qed.

Lemma job_outcome_counts out bf cf final w :
  runs_begun (events (job_outcome out gz cfg bf cf final w)) = 1%nat ∧
  (length (puts (events (job_outcome out gz cfg bf cf final w))) ≤ 1)%nat.
Proof.
  unfold job_outcome.
  destruct (value (createBackup _ _ _ _)); cbn [events]; [cbn; lia|].
  destruct (value (compressFile _ _ _ _ _)); cbn [events]; [cbn; lia|].
  set (r3 := uploadToR2 _ _ _ _).
  assert (runs_begun (events r3) = 0%nat ∧ (length (puts (events r3)) ≤ 1)%nat)
    as [Hr Hp].
  { unfold r3. rewrite uploadToR2_unfold. repeat case_match; cbn; lia. }
  set (r4 := cleanupOldBackups _ _ _).
  assert (runs_begun (events r4) = 0%nat ∧ puts (events r4) = []) as [Hr' Hp'].
  { unfold r4. rewrite cleanupOldBackups_unfold. cbv zeta. cbn [events].
    rewrite prune_events. destruct (list_fails out); [done|].
    change (EStage Prune :: EList remote_prefix :: ?l)
      with ([EStage Prune; EList remote_prefix] ++ l).
    by rewrite runs_begun_app, puts_app, runs_begun_deletes, puts_deletes. }
  destruct (value r3); cbn [events].
  - rewrite runs_begun_app, puts_app, length_app, Hr. cbn. lia.
  - rewrite !runs_begun_app, !puts_app, !length_app, Hr, Hr', Hp'. cbn. lia.
Qed.

Lemma firings_counts outs w :
  runs_begun (events (firings gz cfg outs w)) = length outs ∧
  (length (puts (events (firings gz cfg outs w))) ≤ length outs)%nat.
Proof.
  revert w. induction outs as [|out outs IH]; intros w; [by cbn|].
  rewrite firings_cons, bind_events, runs_begun_app, puts_app, length_app.
  rewrite scheduledJob_outcome. cbv zeta. cbn [events world value].
  destruct (job_outcome_counts out (backupFile out cfg)
              (compressedFile out cfg) LScheduledCompleted w) as [-> Hp].
  destruct (IH (world (job_outcome out gz cfg (backupFile out cfg)
                         (compressedFile out cfg) LScheduledCompleted w)))
    as [-> Hp'].
  cbn [length]. lia.
Qed.

End ServiceLemmas.

(** X18: over the whole life of the service, the start-up run and every
    firing of the scheduled job after it, one firing after the other, each
    with its own faults and clock, every request to the store stays within
    [backups/] and the objects outside [backups/] are those the bucket held
    when the service started. *)
Theorem service_confined_to_prefix env boot first gz outs w :
  Forall within_prefix (happened (main env boot first gz outs w)) ∧
  outside_prefix (bucket (state (main env boot first gz outs w)))
  = outside_prefix (bucket w).
Proof.
  unfold main. destruct (loadConfig env) as [e|cfg]; cbn [happened state].
  { by split. }
  destruct (createS3Client boot cfg); cbn [happened state]; [|by split].
  rewrite runBackup_outcome.
  destruct (scheduleBackup boot); cbn [happened state].
  - split.
    + apply Forall_app. split; [apply job_outcome_within|apply firings_within].
    + apply outside_prefix_eq. intros k Hk.
      rewrite firings_frame by done. by apply job_outcome_frame.
  - split; [apply job_outcome_within|].
    apply outside_prefix_eq. intros k Hk. by apply job_outcome_frame.
Qed.

(** X19: when a required variable is unset, the retention window does not
    scan, or the client cannot be made, the service ends with a fatal error
    before the start-up run: no file and no object is touched, no request is
    made, and the error is not the scheduling one. *)
Theorem service_stops_before_first_run env boot first gz outs w :
  (∃ n, n ∈ required_variables ∧ Getenv env n = "") ∨
  retention_of env = None ∨ sdk_fails boot = true →
  let s := main env boot first gz outs w in
  state s = w ∧ happened s = [] ∧
  ∃ f, fatal s = Some f ∧ f ≠ FatalSchedule ∧ said s = [SStarting; SFatal f].
Proof.
  intros H. cbv zeta. unfold main. rewrite loadConfig_unfold.
  destruct (retention_of env) as [days|] eqn:Hr.
  2:{ cbn. repeat split. by eexists. }
  destruct (first_unset _) as [n|] eqn:Hu.
  { cbn. repeat split. by eexists. }
  unfold createS3Client. cbn [R2AccountID].
  destruct (sdk_fails boot) eqn:Hs.
  { cbn. repeat split. by eexists. }
  exfalso. destruct H as [(n & Hn & He)|[H|H]]; [|done..].
  apply first_unset_None in Hu. rewrite Forall_fmap in Hu.
  rewrite Forall_forall in Hu. by apply (Hu n).
Qed.

Lemma service_stops_before_first_run_witness :
  let s := main ∅ {| sdk_fails := false; cron_fails := false |}
             Scenario.quiet frame_codec [Scenario.quiet] Scenario.world0 in
  state s = Scenario.world0 ∧ happened s = [] ∧
  ∃ f, fatal s = Some f ∧ f ≠ FatalSchedule ∧ said s = [SStarting; SFatal f].
Proof.
  apply (service_stops_before_first_run ∅).
  left. exists "DB_PATH". split; [|reflexivity].
  unfold required_variables. rewrite !elem_of_cons. tauto.
Defined.

(** X20: a service that started has begun exactly one run at start-up and
    one run per firing; and whatever failed, the service has made at most
    one upload per run it began. *)
Theorem service_one_upload_per_run env boot first gz outs w :
  let s := main env boot first gz outs w in
  (fatal s = None → runs_begun (happened s) = S (length outs)) ∧
  (length (puts (happened s)) ≤ runs_begun (happened s))%nat.
Proof.
  cbv zeta. unfold main.
  destruct (loadConfig env) as [e|cfg]; cbn [fatal happened]; [by split|].
  destruct (createS3Client boot cfg); cbn [fatal happened]; [|by split].
  rewrite runBackup_outcome.
  destruct (job_outcome_counts gz cfg first (backupFile first cfg)
              (compressedFile first cfg) LCompleted w) as [Hr Hp].
  destruct (scheduleBackup boot); cbn [fatal happened].
  - rewrite runs_begun_app, puts_app, length_app, Hr.
    destruct (firings_counts gz cfg outs
                (world (job_outcome first gz cfg (backupFile first cfg)
                          (compressedFile first cfg) LCompleted w)))
      as [-> Hp'].
    split; [done|lia].
  - rewrite Hr. split; [done|lia].
Qed.

(** * The stamp tells seconds apart *)

Section Stamps.

Lemma digits_value_zeros k l :
  digits_value 0 (replicate k "0"%char ++ l) = digits_value 0 l.
Proof.
  induction k as [|k IH]; [done|]. cbn [replicate app digits_value].
  change (digit_val "0"%char) with (Some 0). exact IH.
Qed.

Lemma append_int_value x width :
  0 <= x → digits_value 0 (append_int x width) = Some x.
Proof.
  intros Hx. unfold append_int. rewrite (proj2 (Z.ltb_ge x 0)) by lia.
  rewrite Z.abs_eq by lia. cbn [app].
  rewrite digits_value_zeros. by apply itoa_abs_value.
Qed.

Lemma append_int_inj x y width :
  0 <= x → 0 <= y → append_int x width = append_int y width → x = y.
Proof.
  intros Hx Hy H. pose proof (append_int_value x width Hx) as E.
  rewrite H, append_int_value in E by done. congruence.
Qed.

(** The date of a day count determines the day count. *)
Lemma civil_round_trip z :
  days_from_civil (civil_from_days z).1.1 (civil_from_days z).1.2
    (civil_from_days z).2 = z.
Proof.
  unfold civil_from_days, days_from_civil. cbv zeta. cbn [fst snd].
  set (z' := z + 719468). set (era := z' / 146097).
  set (doe := z' - era * 146097).
  assert (0 <= doe < 146097) as Hdoe.
  { unfold doe, era. pose proof (Z.mod_pos_bound z' 146097).
    pose proof (Z.div_mod z' 146097). lia. }
  transitivity (era * 146097 + doe - 719468); [|unfold doe, z'; lia].
  clearbody doe. clearbody era. clear z'.
  set (yoe := (doe - doe / 1460 + doe / 36524 - doe / 146096) / 365).
  assert (0 <= yoe <= 399) as Hyoe by (unfold yoe; Z.div_mod_to_equations; lia).
  set (doy := doe - (365 * yoe + yoe / 4 - yoe / 100)).
  assert (0 <= doy <= 365) as Hdoy
    by (unfold doy, yoe; Z.div_mod_to_equations; lia).
  assert (doe = yoe * 365 + yoe / 4 - yoe / 100 + doy) as Hdoe'
    by (unfold doy; lia).
  clearbody doy. clearbody yoe.
  set (mp := (5 * doy + 2) / 153).
  assert (0 <= mp <= 11) by (unfold mp; Z.div_mod_to_equations; lia).
  set (d := doy - (153 * mp + 2) / 5 + 1).
  assert (doy = (153 * mp + 2) / 5 + d - 1) by (unfold d; lia).
  clearbody d. clearbody mp.
  destruct (mp <? 10) eqn:E; [apply Z.ltb_lt in E|apply Z.ltb_ge in E].
  - replace (mp + 3 <=? 2) with false by (symmetry; apply Z.leb_gt; lia).
    replace (2 <? mp + 3) with true by (symmetry; apply Z.ltb_lt; lia).
    replace (mp + 3 - 3) with mp by lia.
    replace (yoe + era * 400 + 0) with (era * 400 + yoe) by lia.
    rewrite Z.div_add_l by lia. rewrite (Z.div_small yoe 400) by lia.
    replace (era * 400 + yoe - (era + 0) * 400) with yoe by lia. lia.
  - replace (mp - 9 <=? 2) with true by (symmetry; apply Z.leb_le; lia).
    replace (2 <? mp - 9) with false by (symmetry; apply Z.ltb_ge; lia).
    replace (mp - 9 + 9) with mp by lia.
    replace (yoe + era * 400 + 1 - 1) with (era * 400 + yoe) by lia.
    rewrite Z.div_add_l by lia. rewrite (Z.div_small yoe 400) by lia.
    replace (era * 400 + yoe - (era + 0) * 400) with yoe by lia. lia.
Qed.

Lemma format_stamp_inj offset t t' :
  0 <= stamp_year offset t <= 9999 →
  0 <= stamp_year offset t' <= 9999 →
  format_stamp offset t = format_stamp offset t' → sec t = sec t'.
Proof.
  unfold stamp_year, format_stamp. intros Hy Hy' H.
  pose proof (civil_from_days_bounds ((sec t + offset) / 86400)) as [Hm Hd].
  pose proof (civil_from_days_bounds ((sec t' + offset) / 86400)) as [Hm' Hd'].
  pose proof (civil_round_trip ((sec t + offset) / 86400)) as R.
  pose proof (civil_round_trip ((sec t' + offset) / 86400)) as R'.
  destruct (civil_from_days ((sec t + offset) / 86400)) as [[y m] d].
  destruct (civil_from_days ((sec t' + offset) / 86400)) as [[y' m'] d'].
  cbn [fst snd] in *.
  pose proof (Z.mod_pos_bound (sec t + offset) 86400) as Hs.
  pose proof (Z.mod_pos_bound (sec t' + offset) 86400) as Hs'.
  pose proof (Z.div_mod (sec t + offset) 86400) as Ht.
  pose proof (Z.div_mod (sec t' + offset) 86400) as Ht'.
  set (s := (sec t + offset) mod 86400) in *.
  set (s' := (sec t' + offset) mod 86400) in *.
  assert (0 <= s / 3600 < 100 ∧ 0 <= s mod 3600 / 60 < 100 ∧
          0 <= s mod 60 < 100) as (Hh & Hmi & Hse)
    by (Z.div_mod_to_equations; lia).
  assert (0 <= s' / 3600 < 100 ∧ 0 <= s' mod 3600 / 60 < 100 ∧
          0 <= s' mod 60 < 100) as (Hh' & Hmi' & Hse')
    by (Z.div_mod_to_equations; lia).
  apply app_inj_1 in H as [Ey H];
    [|rewrite !(append_int_length _ 3); cbn; lia].
  apply app_inj_1 in H as [Em H];
    [|rewrite !(append_int_length _ 1); cbn; lia].
  apply app_inj_1 in H as [Ed H];
    [|rewrite !(append_int_length _ 1); cbn; lia].
  apply app_inj_1 in H as [_ H]; [|done].
  apply app_inj_1 in H as [Eh H];
    [|rewrite !(append_int_length _ 1); cbn; lia].
  apply app_inj_1 in H as [Emi Ese];
    [|rewrite !(append_int_length _ 1); cbn; lia].
  apply append_int_inj in Ey, Em, Ed, Eh, Emi, Ese; try lia.
  subst y' m' d'.
  assert (s = s') as Es by (Z.div_mod_to_equations; lia).
  lia.
Qed.

Lemma object_key_of_run out cfg :
  object_key (compressedFile out cfg)
  = of_chars (to_chars remote_prefix ++ staged_name out cfg ++ to_chars ".gz").
Proof.
  unfold object_key, compressedFile, filepath.Base.
  rewrite of_chars_app, of_to_chars_id. f_equal. rewrite to_chars_app.
  destruct (backupFile_chars out cfg) as (q & Hq & ->).
  rewrite <- app_assoc, base_open; [done|done| |].
  - apply Forall_app. split; [apply staged_name_no_slash|by repeat constructor].
  - intros H. by apply app_eq_nil in H as [_ H].
Qed.

End Stamps.

(** X21: for one configuration and one time zone, and stamps in the years 0
    to 9999, two runs store their backups under the same key exactly when
    their stamps were taken within the same second: runs in different
    seconds never share a key, and a second run within the same second
    stores its object over that of the first. *)
Theorem keys_tell_seconds_apart out out' cfg :
  zone_offset out = zone_offset out' →
  0 <= stamp_year (zone_offset out) (now_stamp out) <= 9999 →
  0 <= stamp_year (zone_offset out') (now_stamp out') <= 9999 →
  object_key (compressedFile out cfg) = object_key (compressedFile out' cfg)
  ↔ sec (now_stamp out) = sec (now_stamp out').
Proof.
  intros Hz Hy Hy'. rewrite !object_key_of_run. unfold staged_name.
  rewrite <- Hz in *. split.
  - intros H. apply (f_equal to_chars) in H. rewrite !to_of_chars in H.
    apply app_inv_head, app_inv_tail in H.
    apply app_inv_head, app_inv_head, app_inv_tail in H.
    by apply (format_stamp_inj (zone_offset out)).
  - intros H. unfold format_stamp. by rewrite H.
Qed.

Lemma keys_tell_seconds_apart_witness :
  object_key (compressedFile Scenario.quiet Scenario.cfg)
  = object_key (compressedFile same_clock Scenario.cfg)
  ↔ sec (now_stamp Scenario.quiet) = sec (now_stamp same_clock).
Proof.
  exact (keys_tell_seconds_apart Scenario.quiet same_clock Scenario.cfg
           ltac:(reflexivity) ltac:(vm_compute; split; discriminate)
           ltac:(vm_compute; split; discriminate)).
Defined.

(** * A run from end to end *)

(** X22: with a file system that raises no error, a decoder that inverts
    the encoder, a store that accepts the upload, and a database file that
    is not the staged file, a run leaves in the bucket, under its key, an
    object dated by the store whose bytes decompress to the bytes of the
    database file, provided that date is not before the cutoff of the run's
    own pruning pass; and the last line of the run reports its completion. *)
Theorem faultless_run_stores_a_restorable_backup out gz cfg w data :
  codec_sound gz →
  fs_faultless out →
  put_fails out (object_key (compressedFile out cfg)) = false →
  files w !! DBPath cfg = Some data →
  DBPath cfg ≠ backupFile out cfg →
  Before (now_put out) (cutoff_of (now_prune out) (RetentionDays cfg)) = false →
  let run := runBackup out gz cfg w in
  ∃ o, bucket (world run) !! object_key (compressedFile out cfg) = Some o ∧
       LastModified o = now_put out ∧
       gz_decode gz (Body o) = Some data ∧
       last (lines run) = Some LCompleted.
Proof.
  intros Hgz Hf Hput Hsrc Hne Hb. cbv zeta.
  rewrite runBackup_outcome. unfold job_outcome.
  destruct (createBackup_faultless out Hf (DBPath cfg) (backupFile out cfg)
              w data Hsrc Hne) as [E1 F1].
  assert (files (world (createBackup out (DBPath cfg) (backupFile out cfg) w))
          !! backupFile out cfg = Some data) as Hst
    by (by rewrite F1, lookup_insert_eq).
  destruct (compressFile_faultless out gz Hf (backupFile out cfg)
              (compressedFile out cfg) _ data Hst
              (not_eq_sym (compressedFile_ne out cfg))) as [E2 F2].
  rewrite E1, E2.
  set (w2 := world (compressFile out gz (backupFile out cfg)
                      (compressedFile out cfg)
                      (world (createBackup out (DBPath cfg)
                                (backupFile out cfg) w)))) in *.
  assert (value (uploadToR2 out cfg (compressedFile out cfg) w2) = None ∧
          bucket (world (uploadToR2 out cfg (compressedFile out cfg) w2))
          !! object_key (compressedFile out cfg)
          = Some {| LastModified := now_put out; Body := gz_encode gz data |})
    as [E3 B3].
  { rewrite uploadToR2_unfold. unfold opens.
    destruct (Hf (compressedFile out cfg)) as (_ & -> & _).
    rewrite F2, lookup_insert_eq. cbn [negb andb].
    rewrite bool_decide_eq_true_2 by eauto. rewrite Hput.
    cbn [value world bucket default id]. by rewrite lookup_insert_eq. }
  rewrite E3. cbn [world lines].
  rewrite !Remove_bucket, cleanupOldBackups_unfold. cbv zeta.
  cbn [world lines value].
  eexists. split; [apply prune_keeps_recent; [exact B3|exact Hb]|].
  cbn [LastModified Body]. split; [done|]. split; [apply Hgz|].
  by rewrite !app_assoc, last_snoc.
Qed.

Lemma faultless_run_stores_a_restorable_backup_witness :
  let run := runBackup Scenario.quiet frame_codec Scenario.cfg
               Scenario.world0 in
  ∃ o, bucket (world run)
       !! object_key (compressedFile Scenario.quiet Scenario.cfg) = Some o ∧
       LastModified o = now_put Scenario.quiet ∧
       gz_decode frame_codec (Body o) = Some Scenario.data ∧
       last (lines run) = Some LCompleted.
Proof.
  exact (faultless_run_stores_a_restorable_backup Scenario.quiet frame_codec
           Scenario.cfg Scenario.world0 Scenario.data frame_codec_sound
           quiet_faultless ltac:(reflexivity) ltac:(reflexivity)
           ltac:(vm_compute; discriminate) ltac:(vm_compute; reflexivity)).
Defined.

(** * The reach of one pruning pass *)

Lemma delete_requests_deletes (keys : list string) :
  delete_requests (EDelete <$> keys) = keys.
Proof.
  unfold delete_requests. induction keys as [|k keys IH]; [done|].
  cbn. by f_equal.
Qed.

(** X23: a pruning pass works on one listing response: it sends no more
    delete requests than the response carries keys, and an object that the
    response does not carry is in the bucket after the pass as before,
    however old it is. *)
Theorem pruning_reaches_one_response out cutoff w k o :
  bucket w !! k = Some o →
  (k, o) ∉ listing out remote_prefix (bucket w) →
  bucket (world (prune out cutoff w)) !! k = Some o ∧
  (length (delete_requests (events (prune out cutoff w))) ≤ max_keys out)%nat.
Proof.
  intros Hk Hl. split.
  - rewrite prune_bucket. destruct (list_fails out); [done|].
    case_decide as Hd; [|done]. exfalso.
    apply list_elem_of_filter in Hd as [_ (o' & Hin & _)%elem_of_stale].
    pose proof (elem_of_listing out _ _ _ _ Hin) as [_ Ho']. congruence.
  - rewrite prune_events. destruct (list_fails out); [cbn; lia|].
    change (delete_requests (EList remote_prefix :: ?l))
      with (delete_requests l).
    rewrite delete_requests_deletes. unfold stale, listing.
    rewrite length_fmap.
    etransitivity; [apply length_filter|]. rewrite length_take. lia.
Qed.

Lemma pruning_reaches_one_response_witness :
  let out := Scenario.outside_with false false (λ _, false) (λ _, None) 1 in
  bucket (world (prune out Scenario.cutoff0 Scenario.crowded))
  !! Scenario.old_key = Some Scenario.old_object ∧
  (length (delete_requests (events (prune out Scenario.cutoff0
                                      Scenario.crowded))) ≤ 1)%nat.
Proof.
  cbv zeta.
  apply (pruning_reaches_one_response
           (Scenario.outside_with false false (λ _, false) (λ _, None) 1)
           Scenario.cutoff0 Scenario.crowded Scenario.old_key
           Scenario.old_object).
  - vm_compute. reflexivity.
  - intros H. apply list_elem_of_In in H. vm_compute in H.
    destruct H as [H|[]]. discriminate H.
Defined.
